(** * FridgeScan: the detection orchestration layer

    A shallow embedding of [backend/app/services/detection_service.py]
    (class [DetectionService]) and the properties of its label
    classifier, its count aggregator, its ensemble merge and its
    model-selection policy.

    Conventions of the embedding.
    - A Python [str] is a [string] of ASCII characters: [lower] folds
      [A-Z] only and [strip] removes the ASCII white space of
      [str.isspace]; other code points are left alone.
    - A Python [float] that is finite is the rational it denotes ([Q]);
      the code only compares confidences ([>] and [max]) and truncates
      class indices ([int]), it never does float arithmetic on them.
    - A Python [dict] whose iteration order is observed
      ([list(d.values())]) is an association list kept in insertion
      order; assigning to a key that is present keeps its position.
    - [self], the adapters that get called and the warnings that get
      logged are threaded through a small state-and-exception monad.
    - An exception is an instance of Python's [Exception], the class
      every handler of the service names.  [KeyboardInterrupt] and
      [SystemExit], which no handler of the service catches, and a
      file-system call that raises instead of answering, end a call
      where they occur and are outside the embedding. *)

From Stdlib Require Import List String Ascii Bool Arith ZArith QArith Lia.
From Stdlib Require Import DecimalString.
Import ListNotations.

Local Open Scope string_scope.
Local Open Scope list_scope.

Set Implicit Arguments.

(* ================================================================== *)
(** ** Python strings *)

Module PyStr.

(** [c.lower()] for one ASCII character. *)
Definition lower_ascii (c : ascii) : ascii :=
  let n := nat_of_ascii c in
  if (65 <=? n)%nat && (n <=? 90)%nat then ascii_of_nat (n + 32) else c.

(** [s.lower()] *)
Fixpoint lower (s : string) : string :=
  match s with
  | EmptyString => EmptyString
  | String c s' => String (lower_ascii c) (lower s')
  end.

(** [c.isspace()]: TAB, LF, VT, FF, CR, FS, GS, RS, US and SPACE. *)
Definition isspace (c : ascii) : bool :=
  let n := nat_of_ascii c in
  ((9 <=? n)%nat && (n <=? 13)%nat) || ((28 <=? n)%nat && (n <=? 32)%nat).

(** [s.lstrip()] *)
Fixpoint lstrip (s : string) : string :=
  match s with
  | EmptyString => EmptyString
  | String c s' => if isspace c then lstrip s' else s
  end.

(** [s.rstrip()] *)
Fixpoint rstrip (s : string) : string :=
  match s with
  | EmptyString => EmptyString
  | String c s' =>
      match rstrip s' with
      | EmptyString => if isspace c then EmptyString else String c EmptyString
      | r => String c r
      end
  end.

(** [s.strip()] *)
Definition strip (s : string) : string := rstrip (lstrip s).

(** [hay.startswith(needle)] *)
Fixpoint startswith (needle hay : string) : bool :=
  match needle, hay with
  | EmptyString, _ => true
  | String _ _, EmptyString => false
  | String a n', String b h' => Ascii.eqb a b && startswith n' h'
  end.

(** [needle in hay] on two strings. *)
Fixpoint contains (needle hay : string) : bool :=
  startswith needle hay ||
  match hay with
  | EmptyString => false
  | String _ h' => contains needle h'
  end.

(** [x in xs] for a list of strings. *)
Definition mem (x : string) (xs : list string) : bool :=
  existsb (String.eqb x) xs.

(** [str(n)] for an [int]. *)
Definition of_Z (n : Z) : string := NilZero.string_of_int (Z.to_int n).

End PyStr.

(* ================================================================== *)
(** ** LabelClassifier: [DetectionService._category_from_label] *)

Definition fruits : list string :=
  ["apple"; "banana"; "blue berry"; "stawberry"; "strawberry"; "lemon"; "orange"].

Definition vegetables : list string :=
  ["brinjal"; "cabbage"; "capsicum"; "carrot"; "corn"; "cucumber";
   "ginger"; "green beans"; "green chilly"; "green leaves"; "lettuce";
   "mushroom"; "potato"; "sweet potato"; "tomato"; "spinach"; "broccoli"].

Definition dairy : list string :=
  ["milk"; "cheese"; "butter"; "fresh cream"; "yogurt"; "egg"].

Definition meat : list string := ["chicken"; "meat"; "shrimp"].

Definition grains : list string := ["bread"; "flour"].

Definition other : list string := ["chocolate"].

(** [for v in vocab: if v in lower_label: return ...] fires iff some
    entry of [vocab] occurs in the label. *)
Definition any_in (vocab : list string) (lower_label : string) : bool :=
  existsb (fun v => PyStr.contains v lower_label) vocab.

Definition _category_from_label (label : string) : string :=
  let lower_label := PyStr.strip (PyStr.lower label) in
  (* Check exact matches first *)
  if PyStr.mem lower_label fruits then "fruits"
  else if PyStr.mem lower_label vegetables then "vegetables"
  else if PyStr.mem lower_label dairy then "dairy"
  else if PyStr.mem lower_label meat then "meat"
  else if PyStr.mem lower_label grains then "grains"
  else if PyStr.mem lower_label other then "other"
  (* Check partial matches *)
  else if any_in fruits lower_label then "fruits"
  else if any_in vegetables lower_label then "vegetables"
  else if any_in dairy lower_label then "dairy"
  else if any_in meat lower_label then "meat"
  else if any_in grains lower_label then "grains"
  (* Fallback patterns *)
  else if PyStr.contains "fruit" lower_label || PyStr.contains "berry" lower_label
  then "fruits"
  else if PyStr.contains "veg" lower_label || PyStr.contains "leaf" lower_label
  then "vegetables"
  else if PyStr.contains "milk" lower_label || PyStr.contains "cream" lower_label
          || PyStr.contains "cheese" lower_label
  then "dairy"
  else if PyStr.contains "chicken" lower_label || PyStr.contains "meat" lower_label
          || PyStr.contains "fish" lower_label || PyStr.contains "shrimp" lower_label
  then "meat"
  else if PyStr.contains "bread" lower_label || PyStr.contains "flour" lower_label
          || PyStr.contains "grain" lower_label
  then "grains"
  else "uncategorized".

(* ================================================================== *)
(** ** Python values used by the service *)

(** Comparison of two finite floats, [x > y]. *)
Definition Qgtb (x y : Q) : bool := negb (Qle_bool x y).

(** [max(a, b)]: the first argument is kept unless the second is
    strictly greater. *)
Definition py_max (a b : Q) : Q := if Qgtb b a then b else a.

(** [int(x)] on a float: truncation towards zero. *)
Definition py_int (x : Q) : Z := Z.quot (Qnum x) (Z.pos (Qden x)).

(** [a or b or default] on optional strings: [None] and the empty
    string are both falsy. *)
Definition truthy (o : option string) : bool :=
  match o with
  | Some (String _ _) => true
  | _ => false
  end.

Definition py_or (o : option string) (rest : string) : string :=
  match o with
  | Some (String c s) => String c s
  | _ => rest
  end.

(** A [dict] with [str] keys, in insertion order. *)
Module PyDict.
Section Ops.
Variable V : Type.

Definition t := list (string * V).

(** [d.get(k)] *)
Fixpoint get (k : string) (d : t) : option V :=
  match d with
  | [] => None
  | (k', v) :: d' => if String.eqb k k' then Some v else get k d'
  end.

(** [d[k] = v]: replaces in place when [k] is present, appends
    otherwise. *)
Fixpoint set (k : string) (v : V) (d : t) : t :=
  match d with
  | [] => [(k, v)]
  | (k', v') :: d' =>
      if String.eqb k k' then (k', v) :: d' else (k', v') :: set k v d'
  end.

(** [list(d.keys())] and [list(d.values())] *)
Definition keys (d : t) : list string := map fst d.
Definition values (d : t) : list V := map snd d.
End Ops.
End PyDict.

(** The dictionary [_detect_with_model] builds for one box. *)
Record Detection := mkDetection {
  name : string;
  category : string;
  quantity : Z;
  confidence : Q;
  bbox : list Q
}.

(** The dictionary [_group_and_count_detections] builds for one group. *)
Record GroupedDetection := mkGrouped {
  g_name : string;
  g_category : string;
  g_quantity : Z;
  g_unit : string;
  g_confidence : Q;
  g_bbox : list Q
}.

(* ================================================================== *)
(** ** Aggregator: [DetectionService._group_and_count_detections]

    The detections handed to it come from [_detect_with_model], which
    sets every key, so the defaults of [det.get(..., default)] are
    never taken. *)

Definition group_key (det : Detection) : string :=
  let name := PyStr.strip (PyStr.lower (name det)) in
  let category := category det in
  name ++ "_" ++ category.

(** The body of the [for det in detections] loop. *)
Definition group_step (grouped : PyDict.t GroupedDetection) (det : Detection)
  : PyDict.t GroupedDetection :=
  let key := group_key det in
  match PyDict.get key grouped with
  | Some g =>
      let existing_conf := g_confidence g in
      let new_conf := confidence det in
      PyDict.set key
        (mkGrouped (g_name g) (g_category g) (g_quantity g + 1) (g_unit g)
                   (py_max existing_conf new_conf) (g_bbox g))
        grouped
  | None =>
      PyDict.set key
        (mkGrouped (name det) (category det) 1 "item" (confidence det) (bbox det))
        grouped
  end.

Definition _group_and_count_detections (detections : list Detection)
  : list GroupedDetection :=
  PyDict.values (fold_left group_step detections []).

(* ================================================================== *)
(** ** ResultFuser: the merge loop of [DetectionService._detect_with_ensemble] *)

Definition merge_key (det : Detection) : string := PyStr.lower (name det).

(** [if name not in merged or det["confidence"] > merged[name]["confidence"]:
       merged[name] = det] *)
Definition merge_step (merged : PyDict.t Detection) (det : Detection)
  : PyDict.t Detection :=
  let name := merge_key det in
  match PyDict.get name merged with
  | None => PyDict.set name det merged
  | Some stored =>
      if Qgtb (confidence det) (confidence stored)
      then PyDict.set name det merged
      else merged
  end.

Definition merge_detections (primary_detections secondary_detections : list Detection)
  : list Detection :=
  PyDict.values (fold_left merge_step (primary_detections ++ secondary_detections) []).

(* ================================================================== *)
(** ** Exceptions, events and the service monad *)

(** The exceptions the service sees.  [Exception] stands for whatever a
    collaborator (the image decoder, a detector) raises;
    [DetectionModelNotReady] is the service's own error, with the
    exception it was raised [from], if any. *)
Inductive exn : Type :=
| Exception (msg : string)
| DetectionModelNotReady (msg : string) (cause : cause)
with cause : Type :=
| NoCause
| From (exc : exn).

(** [str(exc)] *)
Definition exn_str (e : exn) : string :=
  match e with
  | Exception msg => msg
  | DetectionModelNotReady msg _ => msg
  end.

(** What a call leaves behind besides its result: which detector was
    run (named by the weights file it was built from) and what was
    logged. *)
Inductive event : Type :=
| Predict (weights : string)
| Warning (msg : string).

Definition is_predict (ev : event) : bool :=
  match ev with
  | Predict _ => true
  | Warning _ => false
  end.

Inductive outcome (A : Type) : Type :=
| Return (a : A)
| Raise (e : exn).

Arguments Raise {A} e.

Section Orchestration.

(** The decoded image and the decoder ([PIL.Image.open(...).convert("RGB")])
    are collaborators. *)
Variable Image : Type.
Variable Image_open : list Byte.byte -> exn + Image.

(** One element of what a detector returns: [result.boxes] with its
    three tensors, each possibly missing.  A [Boxes] object without
    rows is falsy like [None]; its tensors are empty, so taking the
    loop over them yields the same detections. *)
Record Boxes := mkBoxes {
  cls : option (list Q);
  conf : option (list Q);
  xyxy : option (list (list Q))
}.

Record Result := mkResult { boxes : option Boxes }.

(** A loaded [YOLO] object: calling it returns results or raises. *)
Record YOLO := mkYOLO {
  weights : string;
  predict : Image -> exn + list Result
}.

Record DetectionService := mkService {
  _primary_model : option YOLO;
  _secondary_model : option YOLO;
  _primary_class_names : list (Z * string);
  _secondary_class_names : list (Z * string);
  _primary_model_error : option string;
  _secondary_model_error : option string;
  _use_ensemble : bool
}.

Record World := mkWorld {
  self : DetectionService;
  trace : list event
}.

Definition M (A : Type) : Type := World -> outcome A * World.

Definition ret {A} (a : A) : M A := fun w => (Return a, w).

Definition bind {A B} (m : M A) (k : A -> M B) : M B :=
  fun w =>
    match m w with
    | (Return a, w') => k a w'
    | (Raise e, w') => (Raise e, w')
    end.

Definition raise {A} (e : exn) : M A := fun w => (Raise e, w).

(** [try: m  except Exception as exc: h exc]: what [m] did before it
    raised stays done. *)
Definition try_except {A} (m : M A) (h : exn -> M A) : M A :=
  fun w =>
    match m w with
    | (Return a, w') => (Return a, w')
    | (Raise e, w') => h e w'
    end.

(** Reading and assigning attributes of [self]. *)
Definition read {A} (f : DetectionService -> A) : M A :=
  fun w => (Return (f (self w)), w).

Definition assign (f : DetectionService -> DetectionService) : M unit :=
  fun w => (Return tt, mkWorld (f (self w)) (trace w)).

Definition emit (ev : event) : M unit :=
  fun w => (Return tt, mkWorld (self w) (trace w ++ [ev])).

(** Turning a collaborator's answer into a return or a raise. *)
Definition lift_result {A} (r : exn + A) : M A :=
  match r with
  | inl e => raise e
  | inr a => ret a
  end.

Notation "x <- m ;; k" := (bind m (fun x => k))
  (at level 61, m at next level, right associativity).
Notation "m ;;; k" := (bind m (fun _ => k))
  (at level 61, right associativity).

(** *** Readiness properties and the ensemble switch *)

Definition is_not_None {A} (o : option A) : bool :=
  match o with
  | Some _ => true
  | None => false
  end.

Definition model_ready (s : DetectionService) : bool :=
  is_not_None (_primary_model s) || is_not_None (_secondary_model s).

Definition primary_model_ready (s : DetectionService) : bool :=
  is_not_None (_primary_model s).

Definition secondary_model_ready (s : DetectionService) : bool :=
  is_not_None (_secondary_model s).

Definition ensemble_mode (s : DetectionService) : bool := _use_ensemble s.

Definition set_ensemble_mode (enabled : bool) : M unit :=
  assign (fun s =>
    mkService (_primary_model s) (_secondary_model s)
              (_primary_class_names s) (_secondary_class_names s)
              (_primary_model_error s) (_secondary_model_error s)
              (enabled && primary_model_ready s && secondary_model_ready s)) ;;;
  now_on <- read _use_ensemble ;;
  if enabled && negb now_on
  then emit (Warning "Ensemble mode requested but both models not available.")
  else ret tt.

(** *** [_detect_with_model] *)

(** [class_names.get(int_cls, f"class_{int_cls}")] *)
Fixpoint class_name (class_names : list (Z * string)) (int_cls : Z) : string :=
  match class_names with
  | [] => "class_" ++ PyStr.of_Z int_cls
  | (k, v) :: rest => if Z.eqb int_cls k then v else class_name rest int_cls
  end.

(** [zip(cls_list, conf_list, xyxy_list)] stops at the shortest list. *)
Fixpoint zip3 {A B C} (xs : list A) (ys : list B) (zs : list C)
  : list (A * B * C) :=
  match xs, ys, zs with
  | x :: xs', y :: ys', z :: zs' => (x, y, z) :: zip3 xs' ys' zs'
  | _, _, _ => []
  end.

Definition or_empty {A} (o : option (list A)) : list A :=
  match o with
  | Some l => l
  | None => []
  end.

Definition detection_of_box (class_names : list (Z * string))
  (box : Q * Q * list Q) : Detection :=
  let '(cls_idx, confidence, bbox) := box in
  let int_cls := py_int cls_idx in
  let label := class_name class_names int_cls in
  mkDetection label (_category_from_label label) 1 confidence bbox.

Definition detections_of_result (class_names : list (Z * string))
  (result : Result) : list Detection :=
  match boxes result with
  | None => []
  | Some b =>
      map (detection_of_box class_names)
          (zip3 (or_empty (cls b)) (or_empty (conf b)) (or_empty (xyxy b)))
  end.

(** The two nested loops of [_detect_with_model] over what the
    detector returned. *)
Definition detections_of_results (class_names : list (Z * string))
  (results : list Result) : list Detection :=
  flat_map (detections_of_result class_names) results.

Definition _detect_with_model (model : YOLO) (class_names : list (Z * string))
  (image : Image) : M (list Detection) :=
  emit (Predict (weights model)) ;;;
  results <- lift_result (predict model image) ;;
  ret (detections_of_results class_names results).

(** *** [_detect_with_ensemble] *)

(** Both slots are bound whenever this is called; [None(image)] would
    be a [TypeError]. *)
Definition call_slot (slot : option YOLO) (class_names : list (Z * string))
  (image : Image) : M (list Detection) :=
  match slot with
  | Some model => _detect_with_model model class_names image
  | None => raise (Exception "'NoneType' object is not callable")
  end.

Definition _detect_with_ensemble (image : Image) : M (list Detection) :=
  pm <- read _primary_model ;;
  pn <- read _primary_class_names ;;
  primary_detections <- call_slot pm pn image ;;
  sm <- read _secondary_model ;;
  sn <- read _secondary_class_names ;;
  secondary_detections <- call_slot sm sn image ;;
  ret (merge_detections primary_detections secondary_detections).

(** *** [detect_ingredients] *)

Definition is_empty {A} (l : list A) : bool :=
  match l with
  | [] => true
  | _ :: _ => false
  end.

(** [self._primary_model_error or self._secondary_model_error or default] *)
Definition load_error_or (default : string) (s : DetectionService) : string :=
  py_or (_primary_model_error s) (py_or (_secondary_model_error s) default).

Definition decode_image (image_bytes : list Byte.byte) : M Image :=
  try_except (lift_result (Image_open image_bytes))
    (fun exc =>
       raise (DetectionModelNotReady ("Failed to decode image: " ++ exn_str exc)
                                     (From exc))).

Definition detect_ingredients (image_bytes : list Byte.byte) : M (list Detection) :=
  if is_empty image_bytes
  then raise (DetectionModelNotReady "Image payload was empty." NoCause)
  else
  ready <- read model_ready ;;
  if negb ready
  then
    message <- read (load_error_or "No detection models are available.") ;;
    raise (DetectionModelNotReady message NoCause)
  else
  image <- decode_image image_bytes ;;
  (* Ensemble mode: use both models and merge results *)
  ensemble <- read (fun s => _use_ensemble s && primary_model_ready s
                             && secondary_model_ready s) ;;
  if ensemble then _detect_with_ensemble image
  else
  (* Try primary model first; [None] means the block fell through. *)
  pm <- read _primary_model ;;
  returned <-
    match pm with
    | Some model =>
        pn <- read _primary_class_names ;;
        try_except
          (dets <- _detect_with_model model pn image ;; ret (Some dets))
          (fun exc =>
             emit (Warning ("Primary model failed, trying secondary: "
                            ++ exn_str exc)) ;;;
             ret None)
    | None => ret None
    end ;;
  match returned with
  | Some dets => ret dets
  | None =>
      (* Fallback to secondary model *)
      sm <- read _secondary_model ;;
      match sm with
      | Some model =>
          sn <- read _secondary_class_names ;;
          try_except
            (_detect_with_model model sn image)
            (fun exc =>
               raise (DetectionModelNotReady
                        ("Both primary and secondary models failed. Last error: "
                         ++ exn_str exc)
                        (From exc)))
      | None =>
          (* No models available *)
          message <- read (load_error_or "Detection models are not available.") ;;
          raise (DetectionModelNotReady message NoCause)
      end
  end.

(** *** [detect_ingredients_both_models] *)

Record BothModels := mkBoth {
  model1 : list GroupedDetection;
  model2 : list GroupedDetection
}.

(** One of the two [if slot is not None: try ... except ...] blocks:
    the value left in [result["modelN"]]. *)
Definition run_slot_grouped (slot : option YOLO) (class_names : list (Z * string))
  (which : string) (image : Image) : M (list GroupedDetection) :=
  match slot with
  | Some model =>
      try_except
        (raw_detections <- _detect_with_model model class_names image ;;
         ret (_group_and_count_detections raw_detections))
        (fun exc =>
           emit (Warning (which ++ " model failed: " ++ exn_str exc)) ;;;
           ret [])
  | None => ret []
  end.

Definition detect_ingredients_both_models (image_bytes : list Byte.byte)
  : M BothModels :=
  if is_empty image_bytes
  then raise (DetectionModelNotReady "Image payload was empty." NoCause)
  else
  pr <- read primary_model_ready ;;
  sr <- read secondary_model_ready ;;
  if negb pr && negb sr
  then
    message <- read (load_error_or "No detection models are available.") ;;
    raise (DetectionModelNotReady message NoCause)
  else
  image <- decode_image image_bytes ;;
  (* Run primary model (Model 1) *)
  pm <- read _primary_model ;;
  pn <- read _primary_class_names ;;
  m1 <- run_slot_grouped pm pn "Primary" image ;;
  (* Run secondary model (Model 2) *)
  sm <- read _secondary_model ;;
  sn <- read _secondary_class_names ;;
  m2 <- run_slot_grouped sm sn "Secondary" image ;;
  ret (mkBoth m1 m2).

(** [detect_ingredients_real] *)
Definition detect_ingredients_real (image_bytes : list Byte.byte)
  : M (list Detection) :=
  detect_ingredients image_bytes.

End Orchestration.

(* ================================================================== *)
(** ** Reference definitions

    What the properties below are stated with.  None of these is
    called by the service; each is compared with it by a theorem. *)

(** *** The classifier's cascade, as a table of tiers

    Written after the design note of the classifier: an ordered list
    of rules per tier, the first rule that fires decides. *)

Definition normalize (label : string) : string :=
  PyStr.strip (PyStr.lower label).

Definition first_rule (fires : list string -> bool)
  (rules : list (list string * string)) : option string :=
  match find (fun rule => fires (fst rule)) rules with
  | Some rule => Some (snd rule)
  | None => None
  end.

Definition vocabularies : list (list string * string) :=
  [(fruits, "fruits"); (vegetables, "vegetables"); (dairy, "dairy");
   (meat, "meat"); (grains, "grains")].

Definition fragment_rules : list (list string * string) :=
  [(["fruit"; "berry"], "fruits");
   (["veg"; "leaf"], "vegetables");
   (["milk"; "cream"; "cheese"], "dairy");
   (["chicken"; "meat"; "fish"; "shrimp"], "meat");
   (["bread"; "flour"; "grain"], "grains")].

(** Tier 1: the label is an entry of a vocabulary (the five sets, then
    the single token of [other]). *)
Definition exact_tier (l : string) : option string :=
  first_rule (PyStr.mem l) (vocabularies ++ [(other, "other")]).

(** Tier 2: the label contains an entry of one of the five sets. *)
Definition substring_tier (l : string) : option string :=
  first_rule (fun vocab => any_in vocab l) vocabularies.

(** Tier 3: the label contains a keyword fragment. *)
Definition fragment_tier (l : string) : option string :=
  first_rule (fun fragments => any_in fragments l) fragment_rules.

(** *** Keys in order of first occurrence *)

Fixpoint first_occurrences (ks : list string) : list string :=
  match ks with
  | [] => []
  | k :: rest =>
      k :: filter (fun k' => negb (String.eqb k' k)) (first_occurrences rest)
  end.

(** The detections of a list that share the key [k], in list order. *)
Definition members (key : Detection -> string) (k : string)
  (dets : list Detection) : list Detection :=
  filter (fun d => String.eqb (key d) k) dets.

(** *** What a group is, from the detections that fall in it *)

(** The running maximum of a non-empty sequence of confidences. *)
Definition running_max (first : Q) (later : list Q) : Q :=
  fold_left py_max later first.

Definition summarize (ms : list Detection) : option GroupedDetection :=
  match ms with
  | [] => None
  | first :: later =>
      Some (mkGrouped (name first) (category first)
                      (1 + Z.of_nat (List.length later)) "item"
                      (running_max (confidence first) (map confidence later))
                      (bbox first))
  end.

(** The pair a group stands for. *)
Definition det_pair (d : Detection) : string * string :=
  (PyStr.strip (PyStr.lower (name d)), category d).

Definition grouped_pair (g : GroupedDetection) : string * string :=
  (PyStr.strip (PyStr.lower (g_name g)), g_category g).

Definition pair_eqb (p q : string * string) : bool :=
  String.eqb (fst p) (fst q) && String.eqb (snd p) (snd q).

(** The pair the design note names: the lower-cased name, not stripped. *)
Definition lowercase_pair (d : Detection) : string * string :=
  (PyStr.lower (name d), category d).

Definition sum_quantities (gs : list GroupedDetection) : Z :=
  fold_right (fun g acc => g_quantity g + acc)%Z 0%Z gs.

(** *** What wins a merge: the first detection of greatest confidence *)

Fixpoint first_max (best : Detection) (later : list Detection) : Detection :=
  match later with
  | [] => best
  | d :: rest =>
      first_max (if Qgtb (confidence d) (confidence best) then d else best) rest
  end.

Definition winner (ms : list Detection) : option Detection :=
  match ms with
  | [] => None
  | first :: later => Some (first_max first later)
  end.

(** *** The entry a loop body leaves under the key of the detection *)

Definition group_entry (found : option GroupedDetection) (det : Detection)
  : GroupedDetection :=
  match found with
  | Some g =>
      mkGrouped (g_name g) (g_category g) (g_quantity g + 1) (g_unit g)
                (py_max (g_confidence g) (confidence det)) (g_bbox g)
  | None =>
      mkGrouped (name det) (category det) 1 "item" (confidence det) (bbox det)
  end.

Definition merge_entry (found : option Detection) (det : Detection) : Detection :=
  match found with
  | Some stored =>
      if Qgtb (confidence det) (confidence stored) then det else stored
  | None => det
  end.

(** *** Errors *)

(** The first of the recorded load errors that is not empty, or the
    generic message. *)
Definition first_non_empty (errors : list (option string)) (generic : string)
  : string :=
  match find truthy errors with
  | Some (Some message) => message
  | _ => generic
  end.

(** Whether [s] occurs in the message of [e] or of an exception [e] was
    raised from. *)
Fixpoint exn_mentions (s : string) (e : exn) : bool :=
  match e with
  | Exception msg => PyStr.contains s msg
  | DetectionModelNotReady msg c =>
      PyStr.contains s msg ||
      match c with
      | NoCause => false
      | From e' => exn_mentions s e'
      end
  end.

Definition embeds_both (first second : exn) (e : exn) : bool :=
  exn_mentions (exn_str first) e && exn_mentions (exn_str second) e.

Definition count_predicts (tr : list event) : nat :=
  List.length (filter is_predict tr).

(** *** One slot of the side-by-side view, as a function of that slot alone *)

Definition slot_view {Image : Type} (slot : option (YOLO Image))
  (class_names : list (Z * string)) (image : Image) : list GroupedDetection :=
  match slot with
  | None => []
  | Some model =>
      match predict model image with
      | inl _ => []
      | inr results =>
          _group_and_count_detections (detections_of_results class_names results)
      end
  end.

(** *** Frame condition: a computation that leaves [self] as it found it *)

Definition keeps_self {Image A : Type} (m : M Image A) : Prop :=
  forall w, self (snd (m w)) = self w.

(** *** A small installation to run the service on

    The image is opaque; one detector that raises and one that finds
    two eggs and a class the label map does not know. *)

Module Bench.

Definition Image : Type := unit.

Definition Image_open (b : list Byte.byte) : exn + Image := inr tt.

Definition payload : list Byte.byte := [Byte.x89; Byte.x50].

Definition failing (weights msg : string) : YOLO Image :=
  mkYOLO weights (fun _ => inl (Exception msg)).

Definition eggs : list Result :=
  [mkResult
     (Some (mkBoxes (Some [0; 0; 7 # 1])
                    (Some [9 # 10; 3 # 4; 1 # 2])
                    (Some [[1; 2; 3; 4]; [5; 6; 7; 8]; [0; 0; 1; 1]])));
   mkResult None]%Q.

Definition finds_eggs (weights : string) : YOLO Image :=
  mkYOLO weights (fun _ => inr eggs).

Definition names : list (Z * string) := [(0%Z, "Egg"); (1%Z, "Tomato")].

Definition service (primary secondary : option (YOLO Image)) (ensemble : bool)
  : DetectionService Image :=
  mkService primary secondary names names None None ensemble.

Definition world (primary secondary : option (YOLO Image)) (ensemble : bool)
  : World Image :=
  mkWorld (service primary secondary ensemble) [].

Definition det (n : string) (c : Q) : Detection :=
  mkDetection n (_category_from_label n) 1 c [].

End Bench.

(* ================================================================== *)
(** ** Further reference definitions *)

(** [all(p(c) for c in s)] *)
Fixpoint all_chars (p : ascii -> bool) (s : string) : bool :=
  match s with
  | EmptyString => true
  | String c s' => p c && all_chars p s'
  end.

(** The characters a synthetic label [class_<n>] is made of. *)
Definition synthetic_char (c : ascii) : bool :=
  PyStr.contains (String c EmptyString) "class_-0123456789".

(** The categories the classifier can answer. *)
Definition categories : list string :=
  ["fruits"; "vegetables"; "dairy"; "meat"; "grains"; "other"; "uncategorized"].

(** How many boxes of a result make it through [zip]. *)
Definition boxes_count (result : Result) : nat :=
  match boxes result with
  | None => 0
  | Some b =>
      Nat.min (List.length (or_empty (cls b)))
              (Nat.min (List.length (or_empty (conf b)))
                       (List.length (or_empty (xyxy b))))
  end.

(** The key string a group was filed under. *)
Definition grouped_key (g : GroupedDetection) : string :=
  (PyStr.strip (PyStr.lower (g_name g)) ++ "_" ++ g_category g)%string.

(** The group a detection makes on its own. *)
Definition single_group (det : Detection) : GroupedDetection :=
  mkGrouped (name det) (category det) 1 "item" (confidence det) (bbox det).

(** [self] with [_use_ensemble] assigned. *)
Definition with_ensemble {Image : Type} (s : DetectionService Image) (b : bool)
  : DetectionService Image :=
  mkService (_primary_model s) (_secondary_model s)
            (_primary_class_names s) (_secondary_class_names s)
            (_primary_model_error s) (_secondary_model_error s) b.

(** The test that sends [detect_ingredients] down the ensemble path. *)
Definition ensemble_effective {Image : Type} (s : DetectionService Image) : bool :=
  _use_ensemble s && primary_model_ready s && secondary_model_ready s.

(** How many of the two slots are bound. *)
Definition bound_slots {Image : Type} (s : DetectionService Image) : nat :=
  (if primary_model_ready s then 1 else 0)
  + (if secondary_model_ready s then 1 else 0).

(** The run a bound slot's detector leaves in the trace. *)
Definition slot_predict {Image : Type} (slot : option (YOLO Image)) : list event :=
  match slot with
  | Some model => [Predict (weights model)]
  | None => []
  end.

(** [isinstance(exc, DetectionModelNotReady)] *)
Definition is_not_ready (e : exn) : bool :=
  match e with
  | DetectionModelNotReady _ _ => true
  | Exception _ => false
  end.

Definition raises_only_not_ready {A : Type} (o : outcome A) : Prop :=
  match o with
  | Return _ => True
  | Raise e => is_not_ready e = true
  end.

(* ================================================================== *)
(** ** Service start: [__init__], [_load_models], [_load_single_model]

    The file system, the label files and the detector constructor are
    collaborators; everything the loader asks of them is a field of
    [Host].  What the loader logs is kept as a list of records.

    [path.exists()] is called outside every [try]: where the file
    system raises instead of answering (an over-long name), the
    constructor ends with that error.  [path_exists] describes the
    calls that answer, so what follows says what a constructor that
    returns has built. *)

Inductive log_record : Type :=
| LogInfo (msg : string)
| LogWarning (msg : string)
| LogException (msg : string).

(** The value under ["names"] of a parsed label file.  For a mapping,
    each key comes with what [int(k)] makes of it (an integer, or the
    exception it raises) and each value as [str(v)]. *)
Inductive yaml_names : Type :=
| NamesDict (items : list ((exn + Z) * string))
| NamesList (names : list string)
| NamesOther.

(** [d[k] = v] on a label map. *)
Fixpoint names_set (k : Z) (v : string) (d : list (Z * string))
  : list (Z * string) :=
  match d with
  | [] => [(k, v)]
  | (k', v') :: d' =>
      if Z.eqb k k' then (k', v) :: d' else (k', v') :: names_set k v d'
  end.

(** [{int(k): str(v) for k, v in names.items()}] *)
Fixpoint names_of_items (items : list ((exn + Z) * string))
  (acc : list (Z * string)) : exn + list (Z * string) :=
  match items with
  | [] => inr acc
  | (inl e, _) :: _ => inl e
  | (inr k, v) :: rest => names_of_items rest (names_set k v acc)
  end.

(** [{idx: str(name) for idx, name in enumerate(names)}] *)
Fixpoint names_of_list (idx : Z) (names : list string) : list (Z * string) :=
  match names with
  | [] => []
  | n :: rest => (idx, n) :: names_of_list (idx + 1) rest
  end.

Definition parse_names (names : yaml_names) : exn + list (Z * string) :=
  match names with
  | NamesDict items => names_of_items items []
  | NamesList l => inr (names_of_list 0 l)
  | NamesOther => inr []
  end.

Section Loading.
Variable Image : Type.
Variable Path : Type.

Record Host := mkHost {
  yolo_installed : bool;                   (* [YOLO is not None] *)
  CV_USE_ENSEMBLE : bool;
  CV_PRIMARY_MODEL : string;
  CV_SECONDARY_MODEL : option string;
  in_models_dir : string -> Path;          (* [models_dir / name] *)
  path_exists : Path -> bool;
  path_str : Path -> string;
  path_name : Path -> string;
  read_names : Path -> exn + yaml_names;   (* read, parse, [.get("names", {})] *)
  YOLO_new : string -> exn + YOLO Image    (* [YOLO(str(model_path))] *)
}.

Variable host : Host.

Definition LoadState : Type := DetectionService Image * list log_record.

Definition log (r : log_record) (st : LoadState) : LoadState :=
  (fst st, snd st ++ [r]).

Definition set_model_error (is_primary : bool) (error_msg : string)
  (st : LoadState) : LoadState :=
  let s := fst st in
  (if is_primary
   then mkService (_primary_model s) (_secondary_model s)
                  (_primary_class_names s) (_secondary_class_names s)
                  (Some error_msg) (_secondary_model_error s) (_use_ensemble s)
   else mkService (_primary_model s) (_secondary_model s)
                  (_primary_class_names s) (_secondary_class_names s)
                  (_primary_model_error s) (Some error_msg) (_use_ensemble s),
   snd st).

Definition set_model (is_primary : bool) (model : option (YOLO Image))
  (st : LoadState) : LoadState :=
  let s := fst st in
  (if is_primary
   then mkService model (_secondary_model s)
                  (_primary_class_names s) (_secondary_class_names s)
                  (_primary_model_error s) (_secondary_model_error s)
                  (_use_ensemble s)
   else mkService (_primary_model s) model
                  (_primary_class_names s) (_secondary_class_names s)
                  (_primary_model_error s) (_secondary_model_error s)
                  (_use_ensemble s),
   snd st).

Definition set_class_names (is_primary : bool) (class_names : list (Z * string))
  (st : LoadState) : LoadState :=
  let s := fst st in
  (if is_primary
   then mkService (_primary_model s) (_secondary_model s)
                  class_names (_secondary_class_names s)
                  (_primary_model_error s) (_secondary_model_error s)
                  (_use_ensemble s)
   else mkService (_primary_model s) (_secondary_model s)
                  (_primary_class_names s) class_names
                  (_primary_model_error s) (_secondary_model_error s)
                  (_use_ensemble s),
   snd st).

(** The label map read from [yaml_path], with the warning logged when
    reading fails; [{}] when the file is missing or unreadable. *)
Definition load_class_names (yaml_path : Path) (st : LoadState)
  : list (Z * string) * LoadState :=
  if path_exists host yaml_path
  then
    match read_names host yaml_path with
    | inl exc =>
        ([], log (LogWarning ("Failed to read " ++ path_str host yaml_path
                              ++ ": " ++ exn_str exc)) st)
    | inr names =>
        match parse_names names with
        | inl exc =>
            ([], log (LogWarning ("Failed to read " ++ path_str host yaml_path
                                  ++ ": " ++ exn_str exc)) st)
        | inr class_names => (class_names, st)
        end
    end
  else ([], st).

Definition _load_single_model (model_path yaml_path : Path) (is_primary : bool)
  (st : LoadState) : LoadState :=
  if negb (path_exists host model_path)
  then
    let error_msg :=
      ("Model weights not found at " ++ path_str host model_path)%string in
    log (LogWarning error_msg) (set_model_error is_primary error_msg st)
  else
    (* Load class names from YAML *)
    let '(class_names, st1) := load_class_names yaml_path st in
    match YOLO_new host (path_str host model_path) with
    | inr model =>
        log (LogInfo ((if is_primary
                       then "Loaded PRIMARY detection model from "
                       else "Loaded SECONDARY detection model from ")
                      ++ path_str host model_path))
            (set_class_names is_primary class_names
               (set_model is_primary (Some model) st1))
    | inl exc =>
        let error_msg :=
          ("Failed to load detection model from " ++ path_str host model_path
           ++ ": " ++ exn_str exc)%string in
        log (LogException error_msg)
            (set_model is_primary None (set_model_error is_primary error_msg st1))
    end.

(** [data2.yaml] if it is there, [data.yaml] otherwise. *)
Definition secondary_yaml_path : Path :=
  if path_exists host (in_models_dir host "data2.yaml")
  then in_models_dir host "data2.yaml"
  else in_models_dir host "data.yaml".

Definition secondary_paths : list Path :=
  [in_models_dir host "best2.pt"; in_models_dir host "alternative.pt";
   in_models_dir host "backup.pt"; in_models_dir host "model2.pt"].

(** The [for sec_path in secondary_paths] loop with its [break]. *)
Fixpoint auto_detect_secondary (candidates : list Path) (st : LoadState)
  : LoadState :=
  match candidates with
  | [] =>
      log (LogInfo "No secondary model found. Only primary model will be used.") st
  | sec_path :: rest =>
      if path_exists host sec_path
      then
        log (LogInfo ("Auto-detected secondary model: "
                      ++ path_name host sec_path))
            (_load_single_model sec_path secondary_yaml_path false st)
      else auto_detect_secondary rest st
  end.

Definition is_truthy (o : option string) : bool :=
  match o with
  | Some (String _ _) => true
  | _ => false
  end.

Definition _load_models (st : LoadState) : LoadState :=
  if negb (yolo_installed host)
  then
    let error_msg :=
      "Ultralytics package not installed. Run `pip install ultralytics`." in
    log (LogWarning error_msg)
        (set_model_error false error_msg (set_model_error true error_msg st))
  else
    (* Load primary model (from config or default: best.pt) *)
    let st1 :=
      _load_single_model (in_models_dir host (CV_PRIMARY_MODEL host))
                         (in_models_dir host "data.yaml") true st in
    (* Load secondary model (from config or auto-detect) *)
    match CV_SECONDARY_MODEL host with
    | Some (String c n) =>
        _load_single_model (in_models_dir host (String c n))
                           secondary_yaml_path false st1
    | _ => auto_detect_secondary secondary_paths st1
    end.

(** What [set_ensemble_mode] logged, as log records. *)
Definition warnings_of (tr : list event) : list log_record :=
  flat_map (fun ev => match ev with
                      | Warning msg => [LogWarning msg]
                      | Predict _ => []
                      end) tr.

(** [DetectionService()]: the object built, or the exception its
    constructor lets through. *)
Definition __init__ : outcome (DetectionService Image) * list log_record :=
  let fresh := mkService None None [] [] None None (CV_USE_ENSEMBLE host) in
  let '(s, logged) := _load_models (fresh, []) in
  (* Apply ensemble setting from config after models are loaded *)
  if _use_ensemble s
  then
    match set_ensemble_mode true (mkWorld s []) with
    | (Return _, w) => (Return (self w), logged ++ warnings_of (trace w))
    | (Raise e, w) => (Raise e, logged ++ warnings_of (trace w))
    end
  else (Return s, logged).

End Loading.

(** The three attributes of one slot. *)
Definition slot_model {Image : Type} (is_primary : bool)
  (s : DetectionService Image) : option (YOLO Image) :=
  if is_primary then _primary_model s else _secondary_model s.

Definition slot_names {Image : Type} (is_primary : bool)
  (s : DetectionService Image) : list (Z * string) :=
  if is_primary then _primary_class_names s else _secondary_class_names s.

Definition slot_error {Image : Type} (is_primary : bool)
  (s : DetectionService Image) : option string :=
  if is_primary then _primary_model_error s else _secondary_model_error s.

(** A slot nothing was loaded into, and a slot after a load: bound
    without an error, or unbound with an error and no labels. *)
Definition slot_untouched {Image : Type} (is_primary : bool)
  (s : DetectionService Image) : Prop :=
  slot_model is_primary s = None /\ slot_names is_primary s = [] /\
  slot_error is_primary s = None.

Definition slot_settled {Image : Type} (is_primary : bool)
  (s : DetectionService Image) : Prop :=
  (slot_model is_primary s <> None /\ slot_error is_primary s = None) \/
  (slot_model is_primary s = None /\ slot_names is_primary s = [] /\
   truthy (slot_error is_primary s) = true).

(* ================================================================== *)
(** ** The scan endpoint: the detection stage of [scan_fridge] *)

Record HTTPException := mkHTTPException {
  status_code : Z;
  detail : string;
  raised_from : exn
}.

(** What the detection stage hands to the rest of the endpoint. *)
Record ScanItems := mkScanItems {
  model1_items : list GroupedDetection;
  model2_items : list GroupedDetection;
  detected_items : list GroupedDetection
}.

(** The first [try] block of [scan_fridge]: the service is asked for
    both views; its [DetectionModelNotReady] becomes a 503 that
    carries the message, any other [Exception] is logged and becomes
    a 500.  The result is the [HTTPException] raised or the items
    handed on. *)
Definition scan_detection_stage {Image : Type}
  (Image_open : list Byte.byte -> exn + Image) (image_bytes : list Byte.byte)
  (w : World Image)
  : (HTTPException + ScanItems) * World Image * list log_record :=
  match detect_ingredients_both_models Image_open image_bytes w with
  | (Return both_models_result, w') =>
      let model1_items := model1 both_models_result in
      let model2_items := model2 both_models_result in
      (inr (mkScanItems model1_items model2_items
              (if is_empty model1_items then model2_items else model1_items)),
       w', [])
  | (Raise (DetectionModelNotReady msg c), w') =>
      (inl (mkHTTPException 503 msg (DetectionModelNotReady msg c)), w', [])
  | (Raise exc, w') =>
      (inl (mkHTTPException 500 "Failed to process image." exc), w',
       [LogException ("Unexpected error during detection: " ++ exn_str exc)])
  end.

(** *** A second rig: a decoder that refuses, and a host with files *)

Module Rig.

Definition broken_open (b : list Byte.byte) : exn + Bench.Image :=
  inl (Exception "cannot identify image file").

(** A models directory with [best.pt], [backup.pt], [model2.pt] and
    [data.yaml]; [backup.pt] is corrupt. *)
Definition files : list string := ["best.pt"; "backup.pt"; "model2.pt"; "data.yaml"].

Definition host (ensemble : bool) : Host Bench.Image string :=
  mkHost true ensemble "best.pt" None
         (fun name => ("models/" ++ name)%string)
         (fun p => PyStr.mem p (map (fun f => ("models/" ++ f)%string) files))
         (fun p => p)
         (fun p => p)
         (fun p => inr (NamesList ["Egg"; "Tomato"]))
         (fun p => if String.eqb p "models/backup.pt"
                   then inl (Exception "invalid load key")
                   else inr (Bench.finds_eggs p)).

(** The same directory on a machine without the detector package. *)
Definition bare_host (ensemble : bool) : Host Bench.Image string :=
  mkHost false ensemble "best.pt" None
         (in_models_dir (host ensemble)) (path_exists (host ensemble))
         (path_str (host ensemble)) (path_name (host ensemble))
         (read_names (host ensemble)) (YOLO_new (host ensemble)).

End Rig.

(* ================================================================== *)
(** * Properties *)

(** ** Strings *)

Lemma startswith_spec (needle hay : string) :
  PyStr.startswith needle hay = true <-> exists post, hay = (needle ++ post)%string.
Proof.
  revert hay; induction needle as [|a n IH]; intros hay; simpl.
  - split; [intros _; now exists hay | reflexivity].
  - destruct hay as [|b h].
    + split; [discriminate | intros [post H]; discriminate].
    + rewrite andb_true_iff, Ascii.eqb_eq, IH. split.
      * intros [-> [post ->]]. now exists post.
      * intros [post H]. injection H as -> ->. split; [reflexivity | now exists post].
Qed.

Lemma contains_spec (needle hay : string) :
  PyStr.contains needle hay = true <->
  exists pre post, hay = (pre ++ needle ++ post)%string.
Proof.
  induction hay as [|b h IH]; simpl; rewrite orb_true_iff.
  - rewrite startswith_spec. split.
    + intros [[post H] | H]; [now exists EmptyString, post | discriminate].
    + intros [[|c pre] [post H]]; [left; now exists post | discriminate].
  - rewrite startswith_spec, IH. split.
    + intros [[post H] | [pre [post H]]].
      * now exists EmptyString, post.
      * exists (String b pre), post. simpl. now rewrite H.
    + intros [[|c pre] [post H]].
      * left. now exists post.
      * right. simpl in H. injection H as _ H. now exists pre, post.
Qed.

Lemma mem_spec (x : string) (xs : list string) :
  PyStr.mem x xs = true <-> In x xs.
Proof.
  unfold PyStr.mem. rewrite existsb_exists. split.
  - intros [y [Hin Heq]]. apply String.eqb_eq in Heq. now subst.
  - intros Hin. exists x. split; [assumption | apply String.eqb_refl].
Qed.

Lemma any_in_spec (vocab : list string) (l : string) :
  any_in vocab l = true <->
  exists v, In v vocab /\ exists pre post, l = (pre ++ v ++ post)%string.
Proof.
  unfold any_in. rewrite existsb_exists.
  split; intros [v [Hin H]]; exists v; (split; [assumption|]);
    now apply contains_spec.
Qed.

Lemma any_in_cons (v : string) (vs : list string) (l : string) :
  any_in (v :: vs) l = PyStr.contains v l || any_in vs l.
Proof. reflexivity. Qed.

Lemma any_in_nil (l : string) : any_in [] l = false.
Proof. reflexivity. Qed.

Lemma lower_ascii_idem (c : ascii) :
  PyStr.lower_ascii (PyStr.lower_ascii c) = PyStr.lower_ascii c.
Proof.
  destruct c as [[] [] [] [] [] [] [] []]; reflexivity.
Qed.

Lemma lower_idem (s : string) : PyStr.lower (PyStr.lower s) = PyStr.lower s.
Proof.
  induction s as [|c s IH]; simpl; [reflexivity|].
  now rewrite lower_ascii_idem, IH.
Qed.

(** ** LabelClassifier *)

(** A tier that answers does so through one of its rules. *)
Lemma first_rule_fires (fires : list string -> bool)
  (rules : list (list string * string)) (c : string) :
  first_rule fires rules = Some c ->
  exists entries, In (entries, c) rules /\ fires entries = true.
Proof.
  unfold first_rule. destruct (find _ rules) as [[entries c']|] eqn:Hf;
    [|discriminate].
  intros H; injection H as <-. apply find_some in Hf. now exists entries.
Qed.

(** The chain of tests of [_category_from_label] is the cascade of
    the three tiers. *)
Lemma category_from_label_tiers (label : string) :
  _category_from_label label =
  match exact_tier (normalize label) with
  | Some c => c
  | None =>
      match substring_tier (normalize label) with
      | Some c => c
      | None =>
          match fragment_tier (normalize label) with
          | Some c => c
          | None => "uncategorized"
          end
      end
  end.
Proof.
  unfold _category_from_label, exact_tier, substring_tier, fragment_tier,
    first_rule, vocabularies, fragment_rules, normalize.
  set (l := PyStr.strip (PyStr.lower label)).
  cbn [app find fst snd].
  repeat rewrite any_in_cons. repeat rewrite any_in_nil.
  destruct (PyStr.mem l fruits); [reflexivity|].
  destruct (PyStr.mem l vegetables); [reflexivity|].
  destruct (PyStr.mem l dairy); [reflexivity|].
  destruct (PyStr.mem l meat); [reflexivity|].
  destruct (PyStr.mem l grains); [reflexivity|].
  destruct (PyStr.mem l other); [reflexivity|].
  destruct (any_in fruits l); [reflexivity|].
  destruct (any_in vegetables l); [reflexivity|].
  destruct (any_in dairy l); [reflexivity|].
  destruct (any_in meat l); [reflexivity|].
  destruct (any_in grains l); [reflexivity|].
  repeat match goal with
         | |- context [PyStr.contains ?s l] =>
             destruct (PyStr.contains s l); cbn [orb]; try reflexivity
         end.
Qed.

(** The classifier does not see case or surrounding white space. *)
Lemma category_case_insensitive (a b : string) :
  normalize a = normalize b -> _category_from_label a = _category_from_label b.
Proof.
  intros H. rewrite !category_from_label_tiers. now rewrite H.
Qed.



(** ** Insertion-ordered dictionaries *)

Section DictFacts.
Variable V : Type.
Implicit Types (d : PyDict.t V) (k : string) (v : V).

Lemma get_set k k' v d :
  PyDict.get k (PyDict.set k' v d) =
  if String.eqb k k' then Some v else PyDict.get k d.
Proof.
  induction d as [|[k1 v1] d IH]; simpl.
  - reflexivity.
  - destruct (String.eqb k' k1) eqn:E1; simpl.
    + apply String.eqb_eq in E1; subst k1.
      destruct (String.eqb k k'); reflexivity.
    + rewrite IH. destruct (String.eqb k k1) eqn:E2; [|reflexivity].
      apply String.eqb_eq in E2; subst k1.
      rewrite String.eqb_sym, E1. reflexivity.
Qed.

Lemma set_same k v d : PyDict.get k d = Some v -> PyDict.set k v d = d.
Proof.
  induction d as [|[k1 v1] d IH]; simpl; [discriminate|].
  destruct (String.eqb k k1) eqn:E.
  - intros H; injection H as ->. reflexivity.
  - intros H. now rewrite IH.
Qed.

Lemma keys_set k v d :
  PyDict.keys (PyDict.set k v d) =
  if PyStr.mem k (PyDict.keys d) then PyDict.keys d else PyDict.keys d ++ [k].
Proof.
  induction d as [|[k1 v1] d IH]; simpl; [reflexivity|].
  destruct (String.eqb k k1); simpl; [reflexivity|].
  unfold PyDict.keys in *. rewrite IH.
  unfold PyStr.mem. destruct (existsb _ _); reflexivity.
Qed.

Lemma get_None_keys k d :
  PyDict.get k d = None <-> PyStr.mem k (PyDict.keys d) = false.
Proof.
  induction d as [|[k1 v1] d IH]; simpl; [tauto|].
  destruct (String.eqb k k1); simpl; [split; discriminate | exact IH].
Qed.

Lemma values_by_keys d :
  NoDup (PyDict.keys d) ->
  map (fun k => PyDict.get k d) (PyDict.keys d) = map Some (PyDict.values d).
Proof.
  induction d as [|[k1 v1] d IH]; simpl; [reflexivity|].
  intros Hnd. inversion Hnd as [|? ? Hnotin Hnd']; subst.
  rewrite String.eqb_refl. f_equal.
  rewrite <- (IH Hnd'). apply map_ext_in. intros k Hin.
  destruct (String.eqb k k1) eqn:E; [|reflexivity].
  apply String.eqb_eq in E; subst. contradiction.
Qed.

Lemma in_values_set k v d x :
  In x (PyDict.values (PyDict.set k v d)) -> x = v \/ In x (PyDict.values d).
Proof.
  induction d as [|[k1 v1] d IH]; simpl.
  - intros [<-|[]]. now left.
  - destruct (String.eqb k k1); simpl.
    + intros [<-|H]; [now left | right; now right].
    + intros [<-|H]; [right; now left|].
      destruct (IH H) as [->|H']; [now left | right; now right].
Qed.

End DictFacts.

(** ** Keys in order of first occurrence *)

Lemma mem_app (x : string) (xs ys : list string) :
  PyStr.mem x (xs ++ ys) = PyStr.mem x xs || PyStr.mem x ys.
Proof. unfold PyStr.mem. apply existsb_app. Qed.

Lemma filter_filter {A} (p q : A -> bool) (l : list A) :
  filter p (filter q l) = filter (fun x => q x && p x) l.
Proof.
  induction l as [|x l IH]; simpl; [reflexivity|].
  destruct (q x); simpl; [destruct (p x)|]; now rewrite IH.
Qed.

Lemma first_occurrences_In (ks : list string) (k : string) :
  In k (first_occurrences ks) <-> In k ks.
Proof.
  induction ks as [|k1 ks IH]; simpl; [tauto|].
  rewrite filter_In, IH, negb_true_iff, String.eqb_neq.
  destruct (String.eqb_spec k1 k) as [->|Hne]; [tauto|].
  split; [tauto|]. intros [H|H]; [contradiction|].
  right. split; [assumption | congruence].
Qed.

Lemma first_occurrences_NoDup (ks : list string) : NoDup (first_occurrences ks).
Proof.
  induction ks as [|k ks IH]; simpl; constructor.
  - rewrite filter_In, negb_true_iff, String.eqb_neq. tauto.
  - now apply NoDup_filter.
Qed.

(** ** Loops that fill a dictionary, one key per element *)

Section DictFold.
Variable V : Type.
Variable key : Detection -> string.
Variable entry : option V -> Detection -> V.
Variable step : PyDict.t V -> Detection -> PyDict.t V.
Hypothesis step_set :
  forall acc d,
    step acc d = PyDict.set (key d) (entry (PyDict.get (key d) acc) d) acc.

Lemma fold_get (k : string) (l : list Detection) (acc : PyDict.t V) :
  PyDict.get k (fold_left step l acc) =
  fold_left (fun o d => Some (entry o d)) (members key k l) (PyDict.get k acc).
Proof.
  revert acc; induction l as [|d l IH]; intros acc; simpl; [reflexivity|].
  rewrite IH, step_set, get_set, (String.eqb_sym k).
  destruct (String.eqb (key d) k) eqn:E; simpl; [|reflexivity].
  apply String.eqb_eq in E. now rewrite E.
Qed.

Lemma fold_keys (l : list Detection) (acc : PyDict.t V) :
  PyDict.keys (fold_left step l acc) =
  PyDict.keys acc ++
  filter (fun k => negb (PyStr.mem k (PyDict.keys acc)))
         (first_occurrences (map key l)).
Proof.
  revert acc; induction l as [|d l IH]; intros acc; simpl.
  - now rewrite app_nil_r.
  - rewrite IH, step_set, keys_set.
    destruct (PyStr.mem (key d) (PyDict.keys acc)) eqn:E; simpl.
    + f_equal. rewrite filter_filter. apply filter_ext. intros k.
      destruct (String.eqb_spec k (key d)) as [->|Hne]; simpl; [|reflexivity].
      now rewrite E.
    + rewrite <- app_assoc. simpl. do 2 f_equal.
      rewrite filter_filter. apply filter_ext. intros k.
      rewrite mem_app. unfold PyStr.mem at 2. simpl. rewrite orb_false_r.
      destruct (String.eqb k (key d)); simpl;
        [now rewrite orb_true_r | now rewrite orb_false_r].
Qed.

(** After the loop, the dictionary holds one value per key, in the
    order in which the keys first occurred; the value under a key is
    what the loop body makes of the detections with that key, taken
    in order. *)
Lemma fold_values (l : list Detection) :
  map Some (PyDict.values (fold_left step l [])) =
  map (fun k => fold_left (fun o d => Some (entry o d)) (members key k l) None)
      (first_occurrences (map key l)).
Proof.
  assert (Hk : PyDict.keys (fold_left step l []) = first_occurrences (map key l)).
  { rewrite fold_keys. simpl.
    clear. induction (first_occurrences (map key l)) as [|k ks IH]; simpl;
      [reflexivity | now rewrite IH]. }
  rewrite <- values_by_keys by (rewrite Hk; apply first_occurrences_NoDup).
  rewrite Hk. apply map_ext. intros k. now rewrite fold_get.
Qed.

End DictFold.

(** ** Confidences *)

Lemma Qgtb_lt (x y : Q) : Qgtb x y = true <-> (y < x)%Q.
Proof.
  unfold Qgtb. rewrite negb_true_iff, <- not_true_iff_false, Qle_bool_iff.
  split; [apply Qnot_le_lt | apply Qlt_not_le].
Qed.

Lemma Qgtb_le (x y : Q) : Qgtb x y = false <-> (x <= y)%Q.
Proof.
  unfold Qgtb. rewrite negb_false_iff. apply Qle_bool_iff.
Qed.

Lemma py_max_cases (a b : Q) :
  ((a < b)%Q /\ py_max a b = b) \/ ((b <= a)%Q /\ py_max a b = a).
Proof.
  unfold py_max. destruct (Qgtb b a) eqn:E.
  - left. split; [now apply Qgtb_lt | reflexivity].
  - right. split; [now apply Qgtb_le | reflexivity].
Qed.

(** The running maximum bounds every confidence seen and is one of
    them: it is neither a mean nor simply the latest value. *)
Lemma running_max_bound (first : Q) (later : list Q) :
  (forall x, In x (first :: later) -> (x <= running_max first later)%Q) /\
  In (running_max first later) (first :: later).
Proof.
  unfold running_max. revert first.
  induction later as [|y later IH]; intros first; simpl.
  - split; [|now left]. intros x [<-|[]]. apply Qle_refl.
  - destruct (IH (py_max first y)) as [Hle Hin]. split.
    + intros x Hx.
      assert (Hxm : (x <= py_max first y)%Q \/ In x later).
      { destruct Hx as [<-|[<-|Hx]]; [| |now right]; left;
          destruct (py_max_cases first y) as [[Hlt ->]|[Hge ->]];
          auto using Qle_refl, Qlt_le_weak. }
      destruct Hxm as [Hxm|Hxm].
      * eapply Qle_trans; [exact Hxm|]. apply Hle. now left.
      * apply Hle. now right.
    + destruct Hin as [Hin|Hin]; [|right; now right].
      rewrite <- Hin.
      destruct (py_max_cases first y) as [[_ ->]|[_ ->]];
        [right; now left | now left].
Qed.

(** ** Aggregator *)

Lemma group_step_set (acc : PyDict.t GroupedDetection) (d : Detection) :
  group_step acc d =
  PyDict.set (group_key d) (group_entry (PyDict.get (group_key d) acc) d) acc.
Proof.
  unfold group_step, group_entry.
  destruct (PyDict.get (group_key d) acc); reflexivity.
Qed.

(** Every later detection of a group adds one to the quantity and
    folds its confidence into the running maximum; nothing else of
    the group changes. *)
Lemma group_entries_later (later : list Detection) (g : GroupedDetection) :
  fold_left (fun o d => Some (group_entry o d)) later (Some g) =
  Some (mkGrouped (g_name g) (g_category g)
                  (g_quantity g + Z.of_nat (List.length later)) (g_unit g)
                  (running_max (g_confidence g) (map confidence later))
                  (g_bbox g)).
Proof.
  revert g; induction later as [|d later IH]; intros g.
  - simpl. rewrite Z.add_0_r. now destruct g.
  - cbn [fold_left]. cbn [group_entry]. rewrite IH. cbn [g_name g_category g_quantity
      g_unit g_confidence g_bbox List.length map running_max fold_left].
    do 2 f_equal. lia.
Qed.

Lemma group_entries_summarize (ms : list Detection) :
  fold_left (fun o d => Some (group_entry o d)) ms None = summarize ms.
Proof.
  destruct ms as [|first later]; [reflexivity|].
  cbn [fold_left group_entry]. rewrite group_entries_later. reflexivity.
Qed.

(** The result of [_group_and_count_detections], key by key. *)
Lemma group_and_count_by_key (dets : list Detection) :
  map Some (_group_and_count_detections dets) =
  map (fun k => summarize (members group_key k dets))
      (first_occurrences (map group_key dets)).
Proof.
  unfold _group_and_count_detections.
  rewrite (fold_values group_key group_entry group_step group_step_set).
  apply map_ext. intros k. apply group_entries_summarize.
Qed.

Lemma summarize_members (k : string) (dets : list Detection) (g : GroupedDetection) :
  summarize (members group_key k dets) = Some g ->
  exists first, In first dets /\ group_key first = k /\
                g_name g = name first /\ g_category g = category first.
Proof.
  unfold summarize. destruct (members group_key k dets) as [|first later] eqn:E;
    [discriminate|].
  intros H; injection H as <-.
  assert (Hin : In first (members group_key k dets)) by (rewrite E; now left).
  apply filter_In in Hin. destruct Hin as [Hin Hk]. apply String.eqb_eq in Hk.
  now exists first.
Qed.

Lemma in_members_summarized (k : string) (dets : list Detection) :
  In k (map group_key dets) -> exists g, summarize (members group_key k dets) = Some g.
Proof.
  intros Hin. apply in_map_iff in Hin. destruct Hin as [d [Hk Hd]].
  assert (Hm : In d (members group_key k dets)).
  { apply filter_In. split; [assumption|]. now apply String.eqb_eq. }
  destruct (members group_key k dets) as [|first later]; [contradiction|].
  simpl. eauto.
Qed.

Lemma map_Some_inj {A} (xs ys : list A) : map Some xs = map Some ys -> xs = ys.
Proof.
  revert ys; induction xs as [|x xs IH]; intros [|y ys] H; try discriminate.
  - reflexivity.
  - simpl in H. injection H as -> H. f_equal. now apply IH.
Qed.

(** The group that stands for a key is in the result, and every group
    of the result stands for a key. *)
Lemma group_of_key (dets : list Detection) (k : string) :
  In k (map group_key dets) ->
  exists g, In g (_group_and_count_detections dets) /\
            summarize (members group_key k dets) = Some g.
Proof.
  intros Hin. destruct (in_members_summarized k dets Hin) as [g Hg].
  exists g. split; [|assumption].
  assert (H : In (Some g) (map Some (_group_and_count_detections dets))).
  { rewrite group_and_count_by_key, <- Hg.
    apply (in_map (fun k => summarize (members group_key k dets))).
    now apply first_occurrences_In. }
  apply in_map_iff in H. destruct H as [g' [Heq Hin']]. now injection Heq as ->.
Qed.

Lemma key_of_group (dets : list Detection) (g : GroupedDetection) :
  In g (_group_and_count_detections dets) ->
  exists k, In k (map group_key dets) /\
            summarize (members group_key k dets) = Some g.
Proof.
  intros Hin. apply (in_map Some) in Hin.
  rewrite group_and_count_by_key in Hin. apply in_map_iff in Hin.
  destruct Hin as [k [Hk Hin]]. exists k.
  split; [now apply first_occurrences_In | assumption].
Qed.

(** The key strings of the groups, in order, are the keys of the
    detections in order of first occurrence. *)
Lemma group_keys_in_order (dets : list Detection) :
  map (fun g => (fst (grouped_pair g) ++ "_" ++ snd (grouped_pair g))%string)
      (_group_and_count_detections dets) =
  first_occurrences (map group_key dets).
Proof.
  apply map_Some_inj.
  transitivity
    (map (option_map (fun g =>
            (fst (grouped_pair g) ++ "_" ++ snd (grouped_pair g))%string))
         (map Some (_group_and_count_detections dets))).
  { rewrite !map_map. reflexivity. }
  rewrite group_and_count_by_key, !map_map.
  apply map_ext_in. intros k Hk. rewrite first_occurrences_In in Hk.
  destruct (in_members_summarized k dets Hk) as [g Hg]. rewrite Hg. simpl.
  destruct (summarize_members _ _ Hg) as [first [_ [Hkey [Hn Hc]]]].
  unfold grouped_pair. simpl. rewrite Hn, Hc. now rewrite <- Hkey.
Qed.

(** A name and a category can be read back from the key string
    [name_category] when the categories hold no underscore. *)
Lemma contains_middle (x y : string) :
  PyStr.contains "_" (x ++ "_" ++ y)%string = true.
Proof. apply contains_spec. now exists x, y. Qed.

Lemma key_string_inj (n1 c1 n2 c2 : string) :
  PyStr.contains "_" c1 = false ->
  PyStr.contains "_" c2 = false ->
  (n1 ++ "_" ++ c1 = n2 ++ "_" ++ c2)%string ->
  n1 = n2 /\ c1 = c2.
Proof.
  intros H1 H2. revert n2.
  induction n1 as [|a n1 IH]; intros [|b n2] H; simpl in H.
  - injection H as ->. now split.
  - injection H as _ H. rewrite H in H1.
    pose proof (contains_middle n2 c2) as Hm. simpl in Hm. congruence.
  - injection H as _ H. rewrite <- H in H2.
    pose proof (contains_middle n1 c1) as Hm. simpl in Hm. congruence.
  - injection H as -> H. destruct (IH _ H) as [-> ->]. now split.
Qed.

Lemma category_no_underscore (label : string) :
  PyStr.contains "_" (_category_from_label label) = false.
Proof.
  unfold _category_from_label.
  repeat match goal with
         | |- context [if ?b then _ else _] => destruct b; [reflexivity|]
         end.
  reflexivity.
Qed.

Lemma pair_eqb_eq (p q : string * string) : pair_eqb p q = true <-> p = q.
Proof.
  destruct p as [a b], q as [c d]. unfold pair_eqb. simpl.
  rewrite andb_true_iff, !String.eqb_eq. split.
  - intros [-> ->]. reflexivity.
  - intros H. injection H as -> ->. now split.
Qed.

(** Two detections with underscore-free categories share a key string
    exactly when they share the pair. *)
Lemma group_key_pair (d1 d2 : Detection) :
  PyStr.contains "_" (category d1) = false ->
  PyStr.contains "_" (category d2) = false ->
  String.eqb (group_key d1) (group_key d2) = pair_eqb (det_pair d1) (det_pair d2).
Proof.
  intros H1 H2. apply eq_true_iff_eq.
  rewrite String.eqb_eq, pair_eqb_eq. unfold group_key, det_pair. split.
  - intros H. apply key_string_inj in H; [|assumption..].
    destruct H as [-> ->]. reflexivity.
  - intros H. injection H as -> ->. reflexivity.
Qed.

(** C5, as the code has it.  For detections whose categories hold no
    underscore (every category the classifier produces), the result
    has exactly one group per distinct pair of stripped lower-cased
    name and category; a group takes name, category and bbox from the
    first detection of its pair, unit "item", as quantity the number
    of detections of the pair, and as confidence their running
    maximum, which bounds all of them and is one of them. *)
Theorem group_and_count_one_per_pair (dets : list Detection) :
  (forall d, In d dets -> PyStr.contains "_" (category d) = false) ->
  let out := _group_and_count_detections dets in
  NoDup (map grouped_pair out) /\
  (forall p, In p (map grouped_pair out) <-> In p (map det_pair dets)) /\
  (forall g, In g out ->
     summarize (filter (fun d => pair_eqb (det_pair d) (grouped_pair g)) dets)
       = Some g /\
     (forall d, In d dets -> det_pair d = grouped_pair g ->
                (confidence d <= g_confidence g)%Q) /\
     (exists d, In d dets /\ det_pair d = grouped_pair g /\
                confidence d = g_confidence g)).
Proof.
  intros Hcat out. subst out.
  (* the detections of a group's pair are those of its key *)
  assert (Hmem : forall g k,
            summarize (members group_key k dets) = Some g ->
            filter (fun d => pair_eqb (det_pair d) (grouped_pair g)) dets
            = members group_key k dets /\
            exists first, In first dets /\ det_pair first = grouped_pair g).
  { intros g k Hg.
    destruct (summarize_members _ _ Hg) as [first [Hin [Hkey [Hn Hc]]]].
    assert (Hp : det_pair first = grouped_pair g).
    { unfold det_pair, grouped_pair. now rewrite Hn, Hc. }
    split; [|now exists first].
    apply filter_ext_in. intros d Hd. rewrite <- Hp, <- Hkey.
    symmetry. apply group_key_pair; auto. }
  split; [|split].
  - apply (NoDup_map_inv
             (fun p : string * string => (fst p ++ "_" ++ snd p)%string)).
    rewrite map_map, group_keys_in_order. apply first_occurrences_NoDup.
  - intros p. split; intros Hp; apply in_map_iff in Hp.
    + destruct Hp as [g [<- Hg]].
      destruct (key_of_group _ _ Hg) as [k [_ Hk]].
      destruct (Hmem _ _ Hk) as [_ [first [Hin <-]]].
      now apply in_map.
    + destruct Hp as [d [<- Hd]].
      destruct (group_of_key dets (group_key d)) as [g [Hg Hk]];
        [now apply in_map|].
      destruct (summarize_members _ _ Hk) as [first [Hin [Hkey [Hn Hc]]]].
      assert (Hp : pair_eqb (det_pair first) (det_pair d) = true).
      { rewrite <- group_key_pair by auto. now apply String.eqb_eq. }
      apply pair_eqb_eq in Hp. rewrite <- Hp.
      replace (det_pair first) with (grouped_pair g)
        by (unfold det_pair, grouped_pair; now rewrite Hn, Hc).
      now apply in_map.
  - intros g Hg. destruct (key_of_group _ _ Hg) as [k [_ Hk]].
    destruct (Hmem _ _ Hk) as [Hf _]. rewrite Hf. split; [assumption|].
    assert (Hms : forall d, In d (members group_key k dets) <->
                            In d dets /\ det_pair d = grouped_pair g).
    { intros d. rewrite <- Hf, filter_In, pair_eqb_eq. tauto. }
    unfold summarize in Hk.
    destruct (members group_key k dets) as [|first later]; [discriminate|].
    injection Hk as <-. cbn [g_confidence].
    destruct (running_max_bound (confidence first) (map confidence later))
      as [Hle Hin].
    split.
    + intros d Hd Hp. apply Hle.
      change (In (confidence d) (map confidence (first :: later))).
      apply in_map. apply Hms. now split.
    + change (In (running_max (confidence first) (map confidence later))
                 (map confidence (first :: later))) in Hin.
      apply in_map_iff in Hin. destruct Hin as [d [Hc Hd]].
      apply Hms in Hd. destruct Hd as [Hd Hp]. now exists d.
Qed.

Lemma group_and_count_one_per_pair_witness :
  let dets := [Bench.det "tomato" (4 # 5); Bench.det "Tomato " (3 # 5);
               Bench.det "egg" (99 # 100)] in
  let out := _group_and_count_detections dets in
  out = [mkGrouped "tomato" "vegetables" 2 "item" (4 # 5) [];
         mkGrouped "egg" "dairy" 1 "item" (99 # 100) []] /\
  NoDup (map grouped_pair out) /\
  (forall p, In p (map grouped_pair out) <-> In p (map det_pair dets)).
Proof.
  intros dets out. split; [reflexivity|].
  assert (H : forall d, In d dets -> PyStr.contains "_" (category d) = false).
  { intros d [<-|[<-|[<-|[]]]]; reflexivity. }
  destruct (group_and_count_one_per_pair dets H) as [H1 [H2 _]].
  split; assumption.
Defined.

(** The design note keys the groups by lower-cased name and category;
    the code strips the lower-cased name as well, so two labels that
    differ in surrounding white space are two such pairs and one
    group. *)
Lemma group_by_lowercase_pair_counterexample :
  let dets := [Bench.det "egg" (9 # 10); Bench.det "egg " (1 # 2)] in
  NoDup (map lowercase_pair dets) /\
  List.length (map lowercase_pair dets) = 2%nat /\
  _group_and_count_detections dets = [mkGrouped "egg" "dairy" 2 "item" (9 # 10) []].
Proof.
  intros dets. split; [|split; reflexivity].
  repeat constructor; simpl; intuition discriminate.
Qed.

(** ** Counting *)

Lemma sum_quantities_set (k : string) (g : GroupedDetection)
  (d : PyDict.t GroupedDetection) :
  sum_quantities (PyDict.values (PyDict.set k g d)) =
  (sum_quantities (PyDict.values d) + g_quantity g
   - match PyDict.get k d with Some old => g_quantity old | None => 0 end)%Z.
Proof.
  induction d as [|[k1 g1] d IH]; simpl; [lia|].
  destruct (String.eqb k k1); simpl; [lia|].
  unfold PyDict.values in *. rewrite IH. lia.
Qed.

Lemma group_step_quantity (acc : PyDict.t GroupedDetection) (d : Detection) :
  sum_quantities (PyDict.values (group_step acc d)) =
  (sum_quantities (PyDict.values acc) + 1)%Z.
Proof.
  rewrite group_step_set, sum_quantities_set. unfold group_entry.
  destruct (PyDict.get (group_key d) acc); simpl; lia.
Qed.

Lemma group_step_positive (acc : PyDict.t GroupedDetection) (d : Detection) :
  (forall g, In g (PyDict.values acc) -> (1 <= g_quantity g)%Z) ->
  forall g, In g (PyDict.values (group_step acc d)) -> (1 <= g_quantity g)%Z.
Proof.
  intros Hacc g. rewrite group_step_set. intros Hg.
  apply in_values_set in Hg. destruct Hg as [->|Hg]; [|now apply Hacc].
  unfold group_entry.
  destruct (PyDict.get (group_key d) acc) as [old|] eqn:E; simpl; [|lia].
  assert (In old (PyDict.values acc)).
  { clear -E. induction acc as [|[k1 g1] acc IH]; simpl in *; [discriminate|].
    destruct (String.eqb _ k1); [injection E as ->; now left | right; auto]. }
  specialize (Hacc old H). lia.
Qed.

(** C10. The quantities of the groups add up to the number of
    detections, each quantity is at least one, and no detections give
    no groups. *)
Theorem group_and_count_conserves (detections : list Detection) :
  sum_quantities (_group_and_count_detections detections)
    = Z.of_nat (List.length detections) /\
  Forall (fun g => (1 <= g_quantity g)%Z) (_group_and_count_detections detections) /\
  _group_and_count_detections [] = [].
Proof.
  unfold _group_and_count_detections.
  assert (H : forall l acc,
    sum_quantities (PyDict.values (fold_left group_step l acc))
      = (sum_quantities (PyDict.values acc) + Z.of_nat (List.length l))%Z /\
    ((forall g, In g (PyDict.values acc) -> (1 <= g_quantity g)%Z) ->
     forall g, In g (PyDict.values (fold_left group_step l acc)) ->
               (1 <= g_quantity g)%Z)).
  { induction l as [|d l IH]; intros acc.
    - simpl. split; [lia | auto].
    - cbn [fold_left]. destruct (IH (group_step acc d)) as [Hs Hp]. split.
      + rewrite Hs, group_step_quantity. cbn [List.length]. lia.
      + intros Hacc. apply Hp. now apply group_step_positive. }
  destruct (H detections []) as [Hs Hp]. split; [|split].
  - rewrite Hs. reflexivity.
  - apply Forall_forall. apply Hp. intros g [].
  - reflexivity.
Qed.

(** ** ResultFuser *)

Lemma set_absent {V} (k : string) (v : V) (d : PyDict.t V) :
  PyDict.get k d = None -> PyDict.set k v d = d ++ [(k, v)].
Proof.
  induction d as [|[k1 v1] d IH]; simpl; [reflexivity|].
  destruct (String.eqb k k1); [discriminate|].
  intros H. now rewrite IH.
Qed.

Lemma merge_step_set (acc : PyDict.t Detection) (d : Detection) :
  merge_step acc d =
  PyDict.set (merge_key d) (merge_entry (PyDict.get (merge_key d) acc) d) acc.
Proof.
  unfold merge_step, merge_entry.
  destruct (PyDict.get (merge_key d) acc) as [stored|] eqn:E; [|reflexivity].
  destruct (Qgtb (confidence d) (confidence stored)); [reflexivity|].
  symmetry. now apply set_same.
Qed.

(** What one round of the loop does to the dictionary: a new key goes
    to the end; a key that is present keeps its place, and its value
    is replaced only by a strictly greater confidence. *)
Lemma merge_step_cases (acc : PyDict.t Detection) (d : Detection) :
  match PyDict.get (merge_key d) acc with
  | None => merge_step acc d = acc ++ [(merge_key d, d)]
  | Some stored =>
      if Qgtb (confidence d) (confidence stored)
      then PyDict.keys (merge_step acc d) = PyDict.keys acc /\
           PyDict.get (merge_key d) (merge_step acc d) = Some d
      else merge_step acc d = acc
  end.
Proof.
  unfold merge_step.
  destruct (PyDict.get (merge_key d) acc) as [stored|] eqn:E.
  - destruct (Qgtb (confidence d) (confidence stored)); [|reflexivity].
    rewrite keys_set, get_set, String.eqb_refl.
    destruct (PyStr.mem (merge_key d) (PyDict.keys acc)) eqn:Em; [now split|].
    apply get_None_keys in Em. congruence.
  - now apply set_absent.
Qed.

Lemma merge_entries_later (later : list Detection) (best : Detection) :
  fold_left (fun o d => Some (merge_entry o d)) later (Some best) =
  Some (first_max best later).
Proof.
  revert best; induction later as [|d later IH]; intros best; [reflexivity|].
  cbn [fold_left merge_entry first_max]. apply IH.
Qed.

Lemma merge_entries_winner (ms : list Detection) :
  fold_left (fun o d => Some (merge_entry o d)) ms None = winner ms.
Proof.
  destruct ms as [|first later]; [reflexivity|].
  cbn [fold_left merge_entry winner]. apply merge_entries_later.
Qed.

(** The result of the merge, key by key. *)
Lemma merge_by_key (primary secondary : list Detection) :
  map Some (merge_detections primary secondary) =
  map (fun k => winner (members merge_key k (primary ++ secondary)))
      (first_occurrences (map merge_key (primary ++ secondary))).
Proof.
  unfold merge_detections.
  rewrite (fold_values merge_key merge_entry merge_step merge_step_set).
  apply map_ext. intros k. apply merge_entries_winner.
Qed.

Lemma members_In (key : Detection -> string) (k : string)
  (l : list Detection) (d : Detection) :
  In d (members key k l) <-> In d l /\ key d = k.
Proof. unfold members. now rewrite filter_In, String.eqb_eq. Qed.

Lemma members_app (key : Detection -> string) (k : string)
  (l1 l2 : list Detection) :
  members key k (l1 ++ l2) = members key k l1 ++ members key k l2.
Proof. apply filter_app. Qed.

Lemma first_max_app (best : Detection) (l1 l2 : list Detection) :
  first_max best (l1 ++ l2) = first_max (first_max best l1) l2.
Proof.
  revert best; induction l1 as [|d l1 IH]; intros best; [reflexivity|].
  simpl. apply IH.
Qed.

Lemma first_max_keeps (best : Detection) (later : list Detection) :
  (forall d, In d later -> (confidence d <= confidence best)%Q) ->
  first_max best later = best.
Proof.
  induction later as [|d later IH]; intros H; [reflexivity|].
  simpl. rewrite (proj2 (Qgtb_le _ _)) by (apply H; now left).
  apply IH. intros x Hx. apply H. now right.
Qed.

(** The winner is the first detection of greatest confidence: those
    before it are strictly below it, those after it are not above. *)
Lemma first_max_split (best : Detection) (later : list Detection) :
  exists pre post,
    best :: later = pre ++ first_max best later :: post /\
    (forall x, In x pre ->
               (confidence x < confidence (first_max best later))%Q) /\
    (forall x, In x post ->
               (confidence x <= confidence (first_max best later))%Q).
Proof.
  revert best; induction later as [|d later IH]; intros best.
  - exists [], []. simpl. repeat split; intros x [].
  - cbn [first_max]. destruct (Qgtb (confidence d) (confidence best)) eqn:E.
    + destruct (IH d) as [pre [post [Heq [Hpre Hpost]]]].
      exists (best :: pre), post. rewrite Heq. split; [reflexivity|].
      split; [|assumption].
      intros x [<-|Hx]; [|now apply Hpre].
      apply Qgtb_lt in E. eapply Qlt_le_trans; [exact E|].
      destruct pre as [|b pre].
      * simpl in Heq. injection Heq as <- _. apply Qle_refl.
      * simpl in Heq. injection Heq as <- _.
        apply Qlt_le_weak, Hpre. now left.
    + destruct (IH best) as [pre [post [Heq [Hpre Hpost]]]].
      apply Qgtb_le in E. destruct pre as [|b pre].
      * simpl in Heq. injection Heq as Hb Hl. subst post.
        exists [], (d :: later). rewrite <- Hb in *.
        split; [reflexivity|]. split; [intros x []|].
        intros x [<-|Hx]; [assumption | now apply Hpost].
      * simpl in Heq. injection Heq as <- Hl.
        exists (best :: d :: pre), post.
        split; [simpl; do 2 f_equal; exact Hl|]. split; [|assumption].
        intros x [<-|[<-|Hx]].
        -- apply Hpre. now left.
        -- eapply Qle_lt_trans; [exact E|]. apply Hpre. now left.
        -- apply Hpre. now right.
Qed.

Lemma first_max_In (best : Detection) (later : list Detection) :
  In (first_max best later) (best :: later).
Proof.
  destruct (first_max_split best later) as [pre [post [-> _]]].
  apply in_elt.
Qed.

Lemma winner_key (k : string) (l : list Detection) (d : Detection) :
  winner (members merge_key k l) = Some d -> In d l /\ merge_key d = k.
Proof.
  unfold winner. destruct (members merge_key k l) as [|first later] eqn:E;
    [discriminate|].
  intros H; injection H as <-. apply (members_In merge_key). rewrite E.
  apply first_max_In.
Qed.

Lemma winner_of_key (k : string) (l : list Detection) :
  In k (map merge_key l) -> exists d, winner (members merge_key k l) = Some d.
Proof.
  intros Hin. apply in_map_iff in Hin. destruct Hin as [d [Hk Hd]].
  assert (Hm : In d (members merge_key k l)) by now apply members_In.
  destruct (members merge_key k l) as [|first later]; [contradiction|].
  simpl. eauto.
Qed.

Lemma in_merge (primary secondary : list Detection) (d : Detection) :
  In d (merge_detections primary secondary) <->
  winner (members merge_key (merge_key d) (primary ++ secondary)) = Some d.
Proof.
  split.
  - intros Hin. apply (in_map Some) in Hin. rewrite merge_by_key in Hin.
    apply in_map_iff in Hin. destruct Hin as [k [Hk _]].
    destruct (winner_key _ _ Hk) as [_ Hkey]. now rewrite Hkey.
  - intros Hw. destruct (winner_key _ _ Hw) as [Hin _].
    assert (H : In (Some d) (map Some (merge_detections primary secondary))).
    { rewrite merge_by_key, <- Hw.
      apply (in_map (fun k => winner (members merge_key k (primary ++ secondary)))).
      apply first_occurrences_In. now apply in_map. }
    apply in_map_iff in H. destruct H as [d' [Heq Hd']]. now injection Heq as ->.
Qed.

Lemma map_by_key {A} (kf : A -> string) (h : string -> option A)
  (ks : list string) (out : list A) :
  map Some out = map h ks ->
  (forall k x, In k ks -> h k = Some x -> kf x = k) ->
  map kf out = ks.
Proof.
  revert out; induction ks as [|k ks IH]; intros [|x out] H Hk;
    simpl in *; try discriminate; [reflexivity|].
  injection H as Hx H. f_equal.
  - apply Hk; [now left | now symmetry].
  - apply IH; [assumption|]. intros k' x' Hin. apply Hk. now right.
Qed.

(** C4. The merge is one loop over the primary detections followed by
    the secondary ones, inserting under the lower-cased name when it
    is new and overwriting only on a strictly greater confidence.  Its
    result has one entry per lower-cased name, in order of first
    insertion; the entry of a name is the first detection of greatest
    confidence among those of that name, so an entry the primary list
    alone would give stays unless a secondary detection of the name is
    strictly more confident: on a tie the primary entry wins. *)
Theorem merge_primary_first (primary secondary : list Detection) :
  let lowercase_name := fun d : Detection => PyStr.lower (name d) in
  let out := merge_detections primary secondary in
  out = PyDict.values
          (fold_left merge_step secondary (fold_left merge_step primary [])) /\
  (forall acc d,
     match PyDict.get (PyStr.lower (name d)) acc with
     | None => merge_step acc d = acc ++ [(PyStr.lower (name d), d)]
     | Some stored =>
         if Qgtb (confidence d) (confidence stored)
         then PyDict.keys (merge_step acc d) = PyDict.keys acc /\
              PyDict.get (PyStr.lower (name d)) (merge_step acc d) = Some d
         else merge_step acc d = acc
     end) /\
  map lowercase_name out
    = first_occurrences (map lowercase_name (primary ++ secondary)) /\
  (forall d, In d out ->
     exists pre post,
       filter (fun d' => String.eqb (PyStr.lower (name d')) (PyStr.lower (name d)))
              (primary ++ secondary) = pre ++ d :: post /\
       (forall x, In x pre -> (confidence x < confidence d)%Q) /\
       (forall x, In x post -> (confidence x <= confidence d)%Q)) /\
  (forall dp, In dp (merge_detections primary []) ->
     (forall ds, In ds secondary ->
                 PyStr.lower (name ds) = PyStr.lower (name dp) ->
                 (confidence ds <= confidence dp)%Q) ->
     In dp out).
Proof.
  intros lowercase_name out. subst lowercase_name out.
  change (fun d : Detection => PyStr.lower (name d)) with merge_key.
  split; [|split; [|split; [|split]]].
  - unfold merge_detections. now rewrite fold_left_app.
  - exact merge_step_cases.
  - apply map_by_key with
      (h := fun k => winner (members merge_key k (primary ++ secondary))).
    + apply merge_by_key.
    + intros k x _ Hw. now destruct (winner_key _ _ Hw).
  - intros d Hd. apply in_merge in Hd. unfold winner in Hd.
    change (filter (fun d' => String.eqb (PyStr.lower (name d'))
                                         (PyStr.lower (name d)))
                   (primary ++ secondary))
      with (members merge_key (merge_key d) (primary ++ secondary)).
    destruct (members merge_key (merge_key d) (primary ++ secondary))
      as [|first later]; [discriminate|].
    injection Hd as <-. apply first_max_split.
  - intros dp Hp Htie. apply in_merge in Hp. rewrite app_nil_r in Hp.
    apply in_merge. rewrite members_app. unfold winner in *.
    destruct (members merge_key (merge_key dp) primary) as [|first later];
      [discriminate|].
    injection Hp as Hp. cbn [app]. rewrite first_max_app, Hp. f_equal.
    apply first_max_keeps. intros ds Hds. apply members_In in Hds.
    destruct Hds as [Hds Hk]. now apply Htie.
Qed.

Lemma merge_primary_first_witness :
  let from_primary := mkDetection "Egg" "dairy" 1 (19 # 20) [1; 1; 2; 2]%Q in
  let milk := mkDetection "Milk" "dairy" 1 (1 # 2) [5; 5; 6; 6]%Q in
  let from_secondary := mkDetection "egg" "dairy" 1 (19 # 20) [3; 3; 4; 4]%Q in
  merge_detections [from_primary; milk] [from_secondary] = [from_primary; milk] /\
  map (fun d => PyStr.lower (name d))
      (merge_detections [from_primary; milk] [from_secondary]) = ["egg"; "milk"] /\
  In from_primary (merge_detections [from_primary; milk] [from_secondary]).
Proof.
  intros from_primary milk from_secondary. split; [reflexivity|].
  pose proof (merge_primary_first [from_primary; milk] [from_secondary]) as H.
  cbv zeta in H. destruct H as [_ [_ [Hkeys [_ Htie]]]].
  split; [exact Hkeys|].
  apply Htie.
  - left. reflexivity.
  - intros ds [<-|[]] _. simpl. apply Qle_refl.
Defined.

Example merge_secondary_greater :
  merge_detections [Bench.det "egg" (9 # 10); Bench.det "milk" (1 # 2)]
                   [Bench.det "Milk" (3 # 5); Bench.det "EGG" (19 # 20)]
  = [Bench.det "EGG" (19 # 20); Bench.det "Milk" (3 # 5)].
Proof. reflexivity. Qed.

(* ================================================================== *)
(** ** OrchestrationPolicy *)

Lemma load_error_or_first (Image : Type) (generic : string)
  (s : DetectionService Image) :
  load_error_or generic s =
  first_non_empty [_primary_model_error s; _secondary_model_error s] generic.
Proof.
  unfold load_error_or, first_non_empty, py_or.
  destruct (_primary_model_error s) as [[|c m]|];
    destruct (_secondary_model_error s) as [[|c' m']|]; reflexivity.
Qed.

Lemma count_predicts_app (tr tr' : list event) :
  count_predicts (tr ++ tr') = (count_predicts tr + count_predicts tr')%nat.
Proof. unfold count_predicts. now rewrite filter_app, length_app. Qed.

Ltac run_service :=
  unfold detect_ingredients_real, detect_ingredients,
    detect_ingredients_both_models, _detect_with_ensemble, call_slot,
    run_slot_grouped, _detect_with_model, decode_image, try_except,
    lift_result, bind, read, raise, ret, emit, model_ready,
    primary_model_ready, secondary_model_ready, is_not_None;
  cbn [is_empty self trace negb andb orb fst snd].

Ltac settle := cbn [is_empty self trace negb andb orb fst snd].

(** Run the service as far as the facts [rw] rewrites with decide. *)
Ltac run_with rw :=
  run_service; repeat (progress (rw; settle)); rewrite <- ?app_assoc.

Section OrchestrationFacts.
Variable Image : Type.
Variable Image_open : list Byte.byte -> exn + Image.
Implicit Types (svc : DetectionService Image) (tr : list event)
  (image_bytes : list Byte.byte) (image : Image).

(** What [_detect_with_model] builds is classified: the category is
    the classifier's answer for the name, and holds no underscore. *)
Lemma detections_are_classified (class_names : list (Z * string))
  (results : list Result) (d : Detection) :
  In d (detections_of_results class_names results) ->
  category d = _category_from_label (name d) /\
  quantity d = 1%Z /\
  PyStr.contains "_" (category d) = false.
Proof.
  unfold detections_of_results. rewrite in_flat_map.
  intros [result [_ Hd]]. unfold detections_of_result in Hd.
  destruct (boxes result) as [b|]; [|contradiction].
  apply in_map_iff in Hd. destruct Hd as [[[c q] bb] [<- _]].
  cbn [detection_of_box category name quantity].
  repeat split. apply category_no_underscore.
Qed.

(** C1. With the ensemble off, a primary detector that raises and a
    secondary detector that answers, [detect_ingredients] returns the
    detections of the secondary detector and does not raise. *)
Theorem detect_falls_back_to_secondary svc tr image_bytes image
  (primary secondary : YOLO Image) (exc : exn) (results : list (Result)) :
  image_bytes <> [] ->
  Image_open image_bytes = inr image ->
  _primary_model svc = Some primary ->
  predict primary image = inl exc ->
  _secondary_model svc = Some secondary ->
  predict secondary image = inr results ->
  _use_ensemble svc = false ->
  detect_ingredients Image_open image_bytes (mkWorld svc tr) =
  (Return (detections_of_results (_secondary_class_names svc) results),
   mkWorld svc
     (tr ++ [Predict (weights primary);
             Warning ("Primary model failed, trying secondary: " ++ exn_str exc);
             Predict (weights secondary)])).
Proof.
  intros Hne Hopen Hp Hpf Hs Hsf Hens.
  destruct image_bytes as [|b bs]; [contradiction|].
  run_with ltac:(rewrite ?Hp, ?Hopen, ?Hens, ?Hpf, ?Hs, ?Hsf).
  reflexivity.
Qed.

(** C3. With neither slot bound, [detect_ingredients] raises
    [DetectionModelNotReady] and runs no detector (the trace is left
    as it was); for a payload that is not empty the message is the
    first non-empty recorded load error, or the generic one.  An empty
    payload raises [DetectionModelNotReady] at once, whatever the
    slots. *)
Theorem detect_unavailable svc tr image_bytes :
  _primary_model svc = None ->
  _secondary_model svc = None ->
  (exists message,
     detect_ingredients Image_open image_bytes (mkWorld svc tr) =
     (Raise (DetectionModelNotReady message NoCause), mkWorld svc tr)) /\
  (image_bytes <> [] ->
   detect_ingredients Image_open image_bytes (mkWorld svc tr) =
   (Raise (DetectionModelNotReady
             (first_non_empty [_primary_model_error svc; _secondary_model_error svc]
                              "No detection models are available.")
             NoCause),
    mkWorld svc tr)) /\
  (forall svc' tr',
     detect_ingredients Image_open [] (mkWorld svc' tr') =
     (Raise (DetectionModelNotReady "Image payload was empty." NoCause),
      mkWorld svc' tr')).
Proof.
  intros Hp Hs.
  assert (Hbound : image_bytes <> [] ->
    detect_ingredients Image_open image_bytes (mkWorld svc tr) =
    (Raise (DetectionModelNotReady
              (first_non_empty [_primary_model_error svc; _secondary_model_error svc]
                               "No detection models are available.")
              NoCause),
     mkWorld svc tr)).
  { intros Hne. destruct image_bytes as [|b bs]; [contradiction|].
    run_with ltac:(rewrite ?Hp, ?Hs). now rewrite load_error_or_first. }
  split; [|split; [exact Hbound | reflexivity]].
  destruct image_bytes as [|b bs].
  - eexists. reflexivity.
  - eexists. apply Hbound. discriminate.
Qed.

(** C2, as the code has it.  In ensemble mode the exception of the
    first detector that raises leaves [detect_ingredients] unchanged:
    nothing is returned, the primary's exception ends the call before
    the secondary detector is run, and the secondary's exception ends
    it after a primary that answered. *)
Theorem ensemble_failure_propagates svc tr image_bytes image
  (primary secondary : YOLO Image) :
  image_bytes <> [] ->
  Image_open image_bytes = inr image ->
  _primary_model svc = Some primary ->
  _secondary_model svc = Some secondary ->
  _use_ensemble svc = true ->
  (forall exc,
     predict primary image = inl exc ->
     detect_ingredients Image_open image_bytes (mkWorld svc tr) =
     (Raise exc, mkWorld svc (tr ++ [Predict (weights primary)]))) /\
  (forall results exc,
     predict primary image = inr results ->
     predict secondary image = inl exc ->
     detect_ingredients Image_open image_bytes (mkWorld svc tr) =
     (Raise exc,
      mkWorld svc (tr ++ [Predict (weights primary); Predict (weights secondary)]))).
Proof.
  intros Hne Hopen Hp Hs Hens.
  destruct image_bytes as [|b bs]; [contradiction|].
  split.
  - intros exc Hpf.
    run_with ltac:(rewrite ?Hp, ?Hs, ?Hopen, ?Hens, ?Hpf). reflexivity.
  - intros results exc Hpf Hsf.
    run_with ltac:(rewrite ?Hp, ?Hs, ?Hopen, ?Hens, ?Hpf, ?Hsf). reflexivity.
Qed.

(** When both detectors answer, the ensemble returns the merge. *)
Lemma ensemble_success svc tr image_bytes image
  (primary secondary : YOLO Image) (r1 r2 : list Result) :
  image_bytes <> [] ->
  Image_open image_bytes = inr image ->
  _primary_model svc = Some primary ->
  _secondary_model svc = Some secondary ->
  _use_ensemble svc = true ->
  predict primary image = inr r1 ->
  predict secondary image = inr r2 ->
  detect_ingredients Image_open image_bytes (mkWorld svc tr) =
  (Return (merge_detections
             (detections_of_results (_primary_class_names svc) r1)
             (detections_of_results (_secondary_class_names svc) r2)),
   mkWorld svc (tr ++ [Predict (weights primary); Predict (weights secondary)])).
Proof.
  intros Hne Hopen Hp Hs Hens Hpf Hsf.
  destruct image_bytes as [|b bs]; [contradiction|].
  run_with ltac:(rewrite ?Hp, ?Hs, ?Hopen, ?Hens, ?Hpf, ?Hsf). reflexivity.
Qed.

(** C7, as the code has it.  With the ensemble not in effect and a
    primary detector that raises: if the secondary detector raises
    too, [detect_ingredients] raises [DetectionModelNotReady] with the
    message of the secondary's exception, chained from it, the
    primary's message having gone to the log only; if the secondary
    slot is unbound, no second detector is run and the error carries
    the first non-empty recorded load error, or the generic message. *)
Theorem primary_failure_without_fallback svc tr image_bytes image
  (primary : YOLO Image) (exc : exn) :
  image_bytes <> [] ->
  Image_open image_bytes = inr image ->
  _primary_model svc = Some primary ->
  _use_ensemble svc && secondary_model_ready svc = false ->
  predict primary image = inl exc ->
  (forall secondary exc2,
     _secondary_model svc = Some secondary ->
     predict secondary image = inl exc2 ->
     detect_ingredients Image_open image_bytes (mkWorld svc tr) =
     (Raise (DetectionModelNotReady
               ("Both primary and secondary models failed. Last error: "
                ++ exn_str exc2)
               (From exc2)),
      mkWorld svc
        (tr ++ [Predict (weights primary);
                Warning ("Primary model failed, trying secondary: " ++ exn_str exc);
                Predict (weights secondary)]))) /\
  (_secondary_model svc = None ->
   let w' := mkWorld svc
               (tr ++ [Predict (weights primary);
                       Warning ("Primary model failed, trying secondary: "
                                ++ exn_str exc)]) in
   detect_ingredients Image_open image_bytes (mkWorld svc tr) =
   (Raise (DetectionModelNotReady
             (first_non_empty [_primary_model_error svc; _secondary_model_error svc]
                              "Detection models are not available.")
             NoCause),
    w') /\
   count_predicts (trace w') = S (count_predicts tr)).
Proof.
  intros Hne Hopen Hp Hens Hpf.
  destruct image_bytes as [|b bs]; [contradiction|].
  unfold secondary_model_ready, is_not_None in Hens.
  split.
  - intros secondary exc2 Hs Hsf. rewrite Hs, andb_true_r in Hens.
    run_with ltac:(rewrite ?Hp, ?Hs, ?Hopen, ?Hens, ?Hpf, ?Hsf). reflexivity.
  - intros Hs w'. subst w'. split.
    + run_with ltac:(rewrite ?Hp, ?Hs, ?Hopen, ?andb_false_r, ?Hpf).
      now rewrite load_error_or_first.
    + cbn [trace]. rewrite count_predicts_app. cbn. lia.
Qed.

(** C8. [detect_ingredients_both_models] with at least one slot bound
    and an image that decodes returns both views; each view is a
    function of its own slot alone, the counted detections of that
    detector, or the empty list when the slot is unbound or its
    detector raises.  With no slot bound it raises what
    [detect_ingredients] raises. *)
Theorem both_models_side_by_side svc tr image_bytes :
  (forall image,
     image_bytes <> [] ->
     model_ready svc = true ->
     Image_open image_bytes = inr image ->
     exists tr',
       detect_ingredients_both_models Image_open image_bytes (mkWorld svc tr) =
       (Return (mkBoth
                  (slot_view (_primary_model svc) (_primary_class_names svc) image)
                  (slot_view (_secondary_model svc) (_secondary_class_names svc) image)),
        mkWorld svc (tr ++ tr'))) /\
  (model_ready svc = false ->
   exists e,
     detect_ingredients_both_models Image_open image_bytes (mkWorld svc tr) =
       (Raise e, mkWorld svc tr) /\
     detect_ingredients Image_open image_bytes (mkWorld svc tr) =
       (Raise e, mkWorld svc tr)).
Proof.
  split.
  - intros image Hne Hready Hopen.
    destruct image_bytes as [|b bs]; [contradiction|].
    unfold model_ready, is_not_None in Hready. unfold slot_view.
    destruct (_primary_model svc) as [pm|] eqn:Hp;
      destruct (_secondary_model svc) as [sm|] eqn:Hs; try discriminate.
    + destruct (predict pm image) eqn:Hpf; destruct (predict sm image) eqn:Hsf;
        run_with ltac:(rewrite ?Hopen, ?Hp, ?Hs, ?Hpf, ?Hsf);
        eexists; reflexivity.
    + destruct (predict pm image) eqn:Hpf;
        run_with ltac:(rewrite ?Hopen, ?Hp, ?Hs, ?Hpf);
        eexists; reflexivity.
    + destruct (predict sm image) eqn:Hsf;
        run_with ltac:(rewrite ?Hopen, ?Hp, ?Hs, ?Hsf);
        eexists; reflexivity.
  - intros Hready. unfold model_ready, is_not_None in Hready.
    destruct (_primary_model svc) as [pm|] eqn:Hp; [discriminate|].
    destruct (_secondary_model svc) as [sm|] eqn:Hs; [discriminate|].
    destruct image_bytes as [|b bs]; eexists; split;
      run_with ltac:(rewrite ?Hp, ?Hs); reflexivity.
Qed.

(** *** The frame of a detection call *)

Lemma keeps_ret {A} (a : A) : keeps_self (ret (Image := Image) a).
Proof. intros w. reflexivity. Qed.

Lemma keeps_raise {A} (e : exn) : keeps_self (raise (Image := Image) (A := A) e).
Proof. intros w. reflexivity. Qed.

Lemma keeps_read {A} (f : DetectionService Image -> A) : keeps_self (read f).
Proof. intros w. reflexivity. Qed.

Lemma keeps_emit (ev : event) : keeps_self (emit (Image := Image) ev).
Proof. intros w. reflexivity. Qed.

Lemma keeps_lift {A} (r : exn + A) : keeps_self (lift_result (Image := Image) r).
Proof. destruct r; intros w; reflexivity. Qed.

Lemma keeps_bind {A B} (m : M Image A) (k : A -> M Image B) :
  keeps_self m -> (forall a, keeps_self (k a)) -> keeps_self (bind m k).
Proof.
  intros Hm Hk w. unfold bind. specialize (Hm w).
  destruct (m w) as [[a|e] w1]; simpl in *; [|assumption].
  now rewrite Hk.
Qed.

Lemma keeps_try {A} (m : M Image A) (h : exn -> M Image A) :
  keeps_self m -> (forall e, keeps_self (h e)) -> keeps_self (try_except m h).
Proof.
  intros Hm Hh w. unfold try_except. specialize (Hm w).
  destruct (m w) as [[a|e] w1]; simpl in *; [assumption|].
  now rewrite Hh.
Qed.

Ltac frame :=
  repeat first
    [ apply keeps_ret | apply keeps_raise | apply keeps_read
    | apply keeps_emit | apply keeps_lift
    | apply keeps_bind | apply keeps_try
    | match goal with
      | |- forall _, _ => intro
      | |- keeps_self (if ?b then _ else _) => destruct b
      | |- keeps_self (match ?x with _ => _ end) => destruct x
      end ].

Lemma keeps_detect_with_model (model : YOLO Image)
  (class_names : list (Z * string)) image :
  keeps_self (_detect_with_model model class_names image).
Proof. unfold _detect_with_model. frame. Qed.

Lemma keeps_detect_ingredients image_bytes :
  keeps_self (detect_ingredients Image_open image_bytes).
Proof.
  unfold detect_ingredients, decode_image, _detect_with_ensemble, call_slot.
  frame; apply keeps_detect_with_model.
Qed.

Lemma keeps_detect_both image_bytes :
  keeps_self (detect_ingredients_both_models Image_open image_bytes).
Proof.
  unfold detect_ingredients_both_models, decode_image, run_slot_grouped.
  frame; apply keeps_detect_with_model.
Qed.

(** C9. A detection call leaves the registry as it found it, whether
    it returns or raises: the bindings, label maps and load errors of
    both slots and the ensemble flag are the same object state, and so
    every readiness query answers as before. *)
Theorem detect_leaves_registry image_bytes (w : World Image) :
  let w' := snd (detect_ingredients Image_open image_bytes w) in
  self w' = self w /\
  model_ready (self w') = model_ready (self w) /\
  primary_model_ready (self w') = primary_model_ready (self w) /\
  secondary_model_ready (self w') = secondary_model_ready (self w) /\
  ensemble_mode (self w') = ensemble_mode (self w).
Proof.
  intros w'. subst w'. rewrite keeps_detect_ingredients. repeat split.
Qed.

End OrchestrationFacts.

(* ================================================================== *)
(** ** The service on the bench *)

Lemma detect_falls_back_to_secondary_witness :
  detect_ingredients Bench.Image_open Bench.payload
    (Bench.world (Some (Bench.failing "best.pt" "primary exploded"))
                 (Some (Bench.finds_eggs "best2.pt")) false)
  = (Return [mkDetection "Egg" "dairy" 1 (9 # 10) [1; 2; 3; 4]%Q;
             mkDetection "Egg" "dairy" 1 (3 # 4) [5; 6; 7; 8]%Q;
             mkDetection "class_7" "uncategorized" 1 (1 # 2) [0; 0; 1; 1]%Q],
     mkWorld (Bench.service (Some (Bench.failing "best.pt" "primary exploded"))
                            (Some (Bench.finds_eggs "best2.pt")) false)
             [Predict "best.pt";
              Warning "Primary model failed, trying secondary: primary exploded";
              Predict "best2.pt"]).
Proof.
  assert (Hne : Bench.payload <> []) by discriminate.
  exact (@detect_falls_back_to_secondary Bench.Image Bench.Image_open
           (Bench.service (Some (Bench.failing "best.pt" "primary exploded"))
                          (Some (Bench.finds_eggs "best2.pt")) false)
           [] Bench.payload tt
           (Bench.failing "best.pt" "primary exploded")
           (Bench.finds_eggs "best2.pt")
           (Exception "primary exploded") Bench.eggs
           Hne eq_refl eq_refl eq_refl eq_refl eq_refl eq_refl).
Defined.

Lemma detect_unavailable_witness :
  let svc := mkService (Image := Bench.Image) None None [] []
               (Some EmptyString) (Some "Model weights not found at models/best2.pt")
               false in
  detect_ingredients Bench.Image_open Bench.payload (mkWorld svc [])
  = (Raise (DetectionModelNotReady "Model weights not found at models/best2.pt"
                                   NoCause),
     mkWorld svc []).
Proof.
  intros svc.
  apply (proj1 (proj2 (@detect_unavailable Bench.Image Bench.Image_open svc []
                         Bench.payload eq_refl eq_refl))).
  discriminate.
Defined.

Lemma ensemble_failure_propagates_witness :
  let primary := Bench.finds_eggs "best.pt" in
  let secondary := Bench.failing "best2.pt" "secondary exploded" in
  detect_ingredients Bench.Image_open Bench.payload
    (Bench.world (Some primary) (Some secondary) true)
  = (Raise (Exception "secondary exploded"),
     mkWorld (Bench.service (Some primary) (Some secondary) true)
             [Predict "best.pt"; Predict "best2.pt"]).
Proof.
  intros primary secondary.
  assert (Hne : Bench.payload <> []) by discriminate.
  exact (proj2 (@ensemble_failure_propagates Bench.Image Bench.Image_open
                  (Bench.service (Some primary) (Some secondary) true)
                  [] Bench.payload tt primary secondary
                  Hne eq_refl eq_refl eq_refl eq_refl)
           Bench.eggs (Exception "secondary exploded") eq_refl eq_refl).
Defined.

(** The design note promises an aggregated error with both messages.
    When both detectors raise in ensemble mode, the error is the
    primary's own exception and says nothing of the secondary's; it is
    the same exception when the secondary would have answered. *)
Lemma ensemble_error_not_aggregated_counterexample :
  let first := Exception "primary exploded" in
  let second := Exception "secondary exploded" in
  let primary := Bench.failing "best.pt" "primary exploded" in
  detect_ingredients Bench.Image_open Bench.payload
    (Bench.world (Some primary)
                 (Some (Bench.failing "best2.pt" "secondary exploded")) true)
  = (Raise first,
     mkWorld (Bench.service (Some primary)
                (Some (Bench.failing "best2.pt" "secondary exploded")) true)
             [Predict "best.pt"]) /\
  embeds_both first second first = false /\
  fst (detect_ingredients Bench.Image_open Bench.payload
         (Bench.world (Some primary) (Some (Bench.finds_eggs "best2.pt")) true))
  = Raise first.
Proof. repeat split. Qed.

Lemma primary_failure_without_fallback_witness :
  let primary := Bench.failing "best.pt" "primary exploded" in
  let svc := mkService (Some primary) None Bench.names []
               None (Some "Model weights not found at models/best2.pt") false in
  detect_ingredients Bench.Image_open Bench.payload (mkWorld svc [])
  = (Raise (DetectionModelNotReady "Model weights not found at models/best2.pt"
                                   NoCause),
     mkWorld svc
       [Predict "best.pt";
        Warning "Primary model failed, trying secondary: primary exploded"]).
Proof.
  intros primary svc.
  assert (Hne : Bench.payload <> []) by discriminate.
  apply (proj2 (@primary_failure_without_fallback Bench.Image Bench.Image_open
                  svc [] Bench.payload tt primary (Exception "primary exploded")
                  Hne eq_refl eq_refl eq_refl eq_refl) eq_refl).
Defined.

(** The design note promises an error that embeds both attempted
    failures.  After a primary and a secondary failure the error
    carries the secondary's message only; after a primary failure with
    no secondary slot it carries a load-time message and nothing of
    the failure that happened. *)
Lemma fallback_error_embeds_last_only_counterexample :
  let first := Exception "primary exploded" in
  let second := Exception "secondary exploded" in
  let primary := Bench.failing "best.pt" "primary exploded" in
  let secondary := Bench.failing "best2.pt" "secondary exploded" in
  let raised :=
    DetectionModelNotReady
      "Both primary and secondary models failed. Last error: secondary exploded"
      (From second) in
  fst (detect_ingredients Bench.Image_open Bench.payload
         (Bench.world (Some primary) (Some secondary) false))
  = Raise raised /\
  exn_mentions (exn_str first) raised = false /\
  embeds_both first second raised = false /\
  fst (detect_ingredients Bench.Image_open Bench.payload
         (Bench.world (Some primary) None false))
  = Raise (DetectionModelNotReady "Detection models are not available." NoCause) /\
  exn_mentions (exn_str first)
    (DetectionModelNotReady "Detection models are not available." NoCause) = false.
Proof. repeat split. Qed.

Lemma both_models_side_by_side_witness :
  let primary := Bench.failing "best.pt" "primary exploded" in
  let secondary := Bench.finds_eggs "best2.pt" in
  exists tr',
    detect_ingredients_both_models Bench.Image_open Bench.payload
      (Bench.world (Some primary) (Some secondary) false)
    = (Return (mkBoth []
                 [mkGrouped "Egg" "dairy" 2 "item" (9 # 10) [1; 2; 3; 4]%Q;
                  mkGrouped "class_7" "uncategorized" 1 "item" (1 # 2)
                            [0; 0; 1; 1]%Q]),
       mkWorld (Bench.service (Some primary) (Some secondary) false) tr').
Proof.
  intros primary secondary.
  assert (Hne : Bench.payload <> []) by discriminate.
  exact (proj1 (@both_models_side_by_side Bench.Image Bench.Image_open
                  (Bench.service (Some primary) (Some secondary) false)
                  [] Bench.payload)
           tt Hne eq_refl eq_refl).
Defined.

(** Unlike a detection call, the ensemble switch does write to the
    registry. *)
Example set_ensemble_mode_writes :
  let w := Bench.world (Some (Bench.finds_eggs "best.pt"))
                       (Some (Bench.finds_eggs "best2.pt")) false in
  ensemble_mode (self (snd (set_ensemble_mode true w))) = true /\
  self (snd (set_ensemble_mode true w)) <> self w.
Proof. split; [reflexivity | discriminate]. Qed.

Example set_ensemble_mode_needs_both :
  let w := Bench.world (Some (Bench.finds_eggs "best.pt")) None false in
  set_ensemble_mode true w =
  (Return tt,
   mkWorld (self w)
     [Warning "Ensemble mode requested but both models not available."]).
Proof. reflexivity. Qed.

(** ** Values checked by evaluation *)

Example categorize_examples :
  _category_from_label "  TOMATO " = "vegetables" /\
  _category_from_label "Dark Chocolate" = "uncategorized" /\
  _category_from_label "chocolate" = "other" /\
  _category_from_label "Bay Leaf" = "vegetables" /\
  _category_from_label "class_7" = "uncategorized".
Proof. repeat split. Qed.

Example python_values :
  PyStr.of_Z 0 = "0" /\ PyStr.of_Z 17 = "17" /\ PyStr.of_Z (-3) = "-3" /\
  PyStr.strip "  a b  " = "a b" /\ PyStr.strip "   " = EmptyString /\
  PyStr.lower "Sweet Potato" = "sweet potato" /\
  py_int (7 # 2) = 3%Z /\ py_int (-7 # 2) = (-3)%Z /\
  group_key (Bench.det " Egg " 1) = "egg_dairy".
Proof. repeat split. Qed.

(* ================================================================== *)
(** * Further properties *)

(** ** Strings over an alphabet *)

Lemma all_chars_app (p : ascii -> bool) (a b : string) :
  all_chars p (a ++ b)%string = all_chars p a && all_chars p b.
Proof.
  induction a as [|c a IH]; simpl; [reflexivity|].
  now rewrite IH, andb_assoc.
Qed.

Lemma all_chars_impl (p q : ascii -> bool) (s : string) :
  (forall c, p c = true -> q c = true) ->
  all_chars p s = true -> all_chars q s = true.
Proof.
  intros Hpq. induction s as [|c s IH]; simpl; [reflexivity|].
  rewrite !andb_true_iff. intros [Hc Hs]. split; auto.
Qed.

(** A word with a letter outside the alphabet of a label does not
    occur in the label. *)
Lemma foreign_contains (p : ascii -> bool) (needle hay : string) :
  all_chars p hay = true -> all_chars p needle = false ->
  PyStr.contains needle hay = false.
Proof.
  intros Hhay Hneedle. apply not_true_is_false. intros Hc.
  apply contains_spec in Hc. destruct Hc as [pre [post ->]].
  rewrite !all_chars_app, !andb_true_iff in Hhay.
  destruct Hhay as [_ [Hn _]]. congruence.
Qed.

Lemma foreign_any_in (p : ascii -> bool) (vocab : list string) (l : string) :
  all_chars p l = true ->
  forallb (fun v => negb (all_chars p v)) vocab = true ->
  any_in vocab l = false.
Proof.
  intros Hl Hv. apply not_true_is_false. intros H.
  apply existsb_exists in H. destruct H as [v [Hin Hc]].
  rewrite forallb_forall in Hv. specialize (Hv v Hin).
  apply negb_true_iff in Hv.
  now rewrite (foreign_contains p v l Hl Hv) in Hc.
Qed.

Lemma foreign_mem (p : ascii -> bool) (vocab : list string) (l : string) :
  all_chars p l = true ->
  forallb (fun v => negb (all_chars p v)) vocab = true ->
  PyStr.mem l vocab = false.
Proof.
  intros Hl Hv. apply not_true_is_false. intros H.
  apply mem_spec in H. rewrite forallb_forall in Hv. specialize (Hv l H).
  apply negb_true_iff in Hv. congruence.
Qed.

Lemma lower_fixed (s : string) :
  all_chars (fun c => Ascii.eqb (PyStr.lower_ascii c) c) s = true ->
  PyStr.lower s = s.
Proof.
  induction s as [|c s IH]; simpl; [reflexivity|].
  rewrite andb_true_iff, Ascii.eqb_eq. intros [-> Hs]. now rewrite IH.
Qed.

Lemma lstrip_fixed (s : string) :
  all_chars (fun c => negb (PyStr.isspace c)) s = true -> PyStr.lstrip s = s.
Proof.
  destruct s as [|c s]; simpl; [reflexivity|].
  rewrite andb_true_iff, negb_true_iff. now intros [-> _].
Qed.

Lemma rstrip_fixed (s : string) :
  all_chars (fun c => negb (PyStr.isspace c)) s = true -> PyStr.rstrip s = s.
Proof.
  induction s as [|c s IH]; simpl; [reflexivity|].
  rewrite andb_true_iff, negb_true_iff. intros [Hc Hs].
  rewrite (IH Hs), Hc. now destruct s.
Qed.

Lemma synthetic_char_plain (c : ascii) :
  synthetic_char c = true ->
  Ascii.eqb (PyStr.lower_ascii c) c = true /\ negb (PyStr.isspace c) = true.
Proof.
  destruct c as [[] [] [] [] [] [] [] []]; intros H;
    try discriminate H; split; reflexivity.
Qed.

Lemma normalize_synthetic (l : string) :
  all_chars synthetic_char l = true -> normalize l = l.
Proof.
  intros H. unfold normalize, PyStr.strip.
  rewrite lower_fixed, lstrip_fixed, rstrip_fixed; try reflexivity;
    apply (all_chars_impl synthetic_char); auto;
    intros c Hc; now apply synthetic_char_plain.
Qed.

Lemma uint_synthetic (u : Decimal.uint) :
  all_chars synthetic_char (NilEmpty.string_of_uint u) = true.
Proof. induction u; simpl; auto. Qed.

Lemma of_Z_synthetic (n : Z) : all_chars synthetic_char (PyStr.of_Z n) = true.
Proof.
  unfold PyStr.of_Z, NilZero.string_of_int.
  assert (H : forall u, all_chars synthetic_char (NilZero.string_of_uint u) = true).
  { intros u. destruct u; try reflexivity; apply (uint_synthetic (_ u)). }
  destruct (Z.to_int n) as [u|u]; [apply H|]. simpl. apply H.
Qed.

(** ** LabelClassifier, further *)

(** A label written in the alphabet of the synthetic names matches no
    vocabulary word and no keyword fragment. *)
Lemma synthetic_alphabet_uncategorized (label : string) :
  all_chars synthetic_char label = true ->
  _category_from_label label = "uncategorized".
Proof.
  intros H. unfold _category_from_label. fold (normalize label).
  rewrite (normalize_synthetic label H).
  rewrite !(foreign_mem synthetic_char _ label H) by reflexivity.
  rewrite !(foreign_any_in synthetic_char _ label H) by reflexivity.
  rewrite !(foreign_contains synthetic_char _ label H) by reflexivity.
  reflexivity.
Qed.

(** The classifier answers within a closed set of seven categories. *)
Theorem category_in_taxonomy (label : string) :
  In (_category_from_label label) categories.
Proof.
  unfold _category_from_label, categories.
  repeat match goal with
         | |- context [if ?b then _ else _] => destruct b; [simpl; tauto|]
         end.
  simpl; tauto.
Qed.

(** The category "other" is reserved to the one token of its list:
    unlike the five vocabularies, [other] is not searched for inside
    longer labels. *)
Theorem other_only_for_chocolate (label : string) :
  _category_from_label label = "other" <-> normalize label = "chocolate".
Proof.
  split.
  - unfold _category_from_label. fold (normalize label).
    repeat match goal with
           | |- context [if ?b then _ else _] =>
               destruct b eqn:?; [try discriminate|]
           end; try discriminate.
    intros _.
    match goal with
    | H : PyStr.mem (normalize label) other = true |- _ =>
        apply mem_spec in H; destruct H as [H|[]]; now symmetry
    end.
  - intros H. unfold _category_from_label. fold (normalize label).
    rewrite H. reflexivity.
Qed.

Lemma other_only_for_chocolate_witness :
  normalize " Chocolate" = "chocolate" /\
  _category_from_label " Chocolate" = "other" /\
  _category_from_label "Milk Chocolate" <> "other".
Proof.
  split; [reflexivity|]. split.
  - apply (proj2 (other_only_for_chocolate " Chocolate")). reflexivity.
  - intros H. apply (proj1 (other_only_for_chocolate "Milk Chocolate")) in H.
    discriminate H.
Defined.

(** A label that is, up to case and surrounding white space, a word of
    one of the six lists gets the category of that list: no word sits
    in two lists or is shadowed by an earlier one. *)
Theorem vocabulary_word_category (label : string) (vocab : list string)
  (c : string) :
  In (vocab, c) (vocabularies ++ [(other, "other")]) ->
  In (normalize label) vocab ->
  _category_from_label label = c.
Proof.
  intros Hrule Hword. rewrite category_from_label_tiers.
  simpl in Hrule.
  repeat (destruct Hrule as [Hrule|Hrule];
          [injection Hrule as <- <-; simpl in Hword;
           repeat (destruct Hword as [Hword|Hword];
                   [rewrite <- Hword; reflexivity|]);
           contradiction|]).
  contradiction.
Qed.

Lemma vocabulary_word_category_witness :
  In (normalize "  Green Beans ") vegetables /\
  _category_from_label "  Green Beans " = "vegetables".
Proof.
  assert (H : In (normalize "  Green Beans ") vegetables).
  { simpl. do 7 right. left. reflexivity. }
  split; [exact H|].
  apply (@vocabulary_word_category "  Green Beans " vegetables "vegetables");
    [simpl; tauto | exact H].
Defined.

(** ** [_detect_with_model], further *)

Lemma class_name_absent (class_names : list (Z * string)) (n : Z) :
  (forall k v, In (k, v) class_names -> k <> n) ->
  class_name class_names n = ("class_" ++ PyStr.of_Z n)%string.
Proof.
  induction class_names as [|[k v] rest IH]; intros H; simpl; [reflexivity|].
  destruct (Z.eqb_spec n k) as [->|_].
  - exfalso. apply (H k v); [now left | reflexivity].
  - apply IH. intros k' v' Hin. apply (H k' v'). now right.
Qed.

(** A box whose class index the label map does not know is reported
    under the synthetic name [class_<index>], and that name is always
    uncategorized; confidence and bbox are passed through. *)
Theorem unknown_class_is_uncategorized (class_names : list (Z * string))
  (cls_idx confidence : Q) (bbox : list Q) :
  (forall k v, In (k, v) class_names -> k <> py_int cls_idx) ->
  detection_of_box class_names (cls_idx, confidence, bbox) =
  mkDetection ("class_" ++ PyStr.of_Z (py_int cls_idx)) "uncategorized" 1
              confidence bbox.
Proof.
  intros H. unfold detection_of_box. rewrite (class_name_absent _ H).
  f_equal. apply synthetic_alphabet_uncategorized.
  rewrite all_chars_app, of_Z_synthetic. reflexivity.
Qed.

Lemma unknown_class_is_uncategorized_witness :
  detection_of_box Bench.names ((-15 # 2)%Q, (1 # 3)%Q, [0; 0; 1; 1]%Q) =
  mkDetection "class_-7" "uncategorized" 1 (1 # 3) [0; 0; 1; 1]%Q.
Proof.
  apply (@unknown_class_is_uncategorized Bench.names (-15 # 2) (1 # 3)
           [0; 0; 1; 1]%Q).
  intros k v [H|[H|[]]]; injection H as <- _; discriminate.
Defined.

Lemma length_zip3 {A B C} (xs : list A) (ys : list B) (zs : list C) :
  List.length (zip3 xs ys zs) =
  Nat.min (List.length xs) (Nat.min (List.length ys) (List.length zs)).
Proof.
  revert ys zs; induction xs as [|x xs IH]; intros [|y ys] [|z zs];
    simpl; try reflexivity.
  now rewrite IH.
Qed.

Lemma zip3_confidences {A C} (xs : list A) (ys : list Q) (zs : list C) :
  map (fun t => snd (fst t)) (zip3 xs ys zs) =
  firstn (Nat.min (List.length xs) (Nat.min (List.length ys) (List.length zs))) ys.
Proof.
  revert ys zs; induction xs as [|x xs IH]; intros [|y ys] [|z zs];
    simpl; try reflexivity.
  now rewrite IH.
Qed.

Lemma zip3_boxes {A B} (xs : list A) (ys : list B) (zs : list (list Q)) :
  map snd (zip3 xs ys zs) =
  firstn (Nat.min (List.length xs) (Nat.min (List.length ys) (List.length zs))) zs.
Proof.
  revert ys zs; induction xs as [|x xs IH]; intros [|y ys] [|z zs];
    simpl; try reflexivity.
  now rewrite IH.
Qed.

Lemma zip3_classes {B C} (xs : list Q) (ys : list B) (zs : list C) :
  map (fun t => fst (fst t)) (zip3 xs ys zs) =
  firstn (Nat.min (List.length xs) (Nat.min (List.length ys) (List.length zs))) xs.
Proof.
  revert ys zs; induction xs as [|x xs IH]; intros [|y ys] [|z zs];
    simpl; try reflexivity.
  now rewrite IH.
Qed.

(** The detections of one result are as many as the shortest of its
    three tensors, a missing tensor counting as empty and a result
    without boxes giving none; box by box, in order, they carry the
    label of the truncated class index, the confidence and the bbox of
    the result.  The detections of a call are those of its results in
    the order of the results: those of a single result are its own,
    and those of two runs of results are those of the first run
    followed by those of the second. *)
Theorem detections_follow_shortest_tensor (class_names : list (Z * string))
  (results : list Result) :
  (forall result,
     List.length (detections_of_result class_names result) = boxes_count result /\
     match boxes result with
     | None => detections_of_result class_names result = []
     | Some b =>
         map name (detections_of_result class_names result) =
           map (fun c => class_name class_names (py_int c))
               (firstn (boxes_count result) (or_empty (cls b))) /\
         map confidence (detections_of_result class_names result) =
           firstn (boxes_count result) (or_empty (conf b)) /\
         map bbox (detections_of_result class_names result) =
           firstn (boxes_count result) (or_empty (xyxy b))
     end) /\
  (forall result,
     detections_of_results class_names [result]
     = detections_of_result class_names result) /\
  (forall earlier later,
     detections_of_results class_names (earlier ++ later)
     = detections_of_results class_names earlier
       ++ detections_of_results class_names later) /\
  map confidence (detections_of_results class_names results) =
    flat_map (fun result =>
                match boxes result with
                | None => []
                | Some b => firstn (boxes_count result) (or_empty (conf b))
                end) results /\
  List.length (detections_of_results class_names results) =
  list_sum (map boxes_count results).
Proof.
  assert (H : forall result,
    List.length (detections_of_result class_names result) = boxes_count result).
  { intros result. unfold detections_of_result, boxes_count.
    destruct (boxes result) as [b|]; [|reflexivity].
    now rewrite length_map, length_zip3. }
  assert (Hc : forall result,
    map confidence (detections_of_result class_names result) =
    match boxes result with
    | None => []
    | Some b => firstn (boxes_count result) (or_empty (conf b))
    end).
  { intros result. unfold detections_of_result, boxes_count.
    destruct (boxes result) as [b|]; [|reflexivity].
    rewrite map_map, <- zip3_confidences. apply map_ext.
    intros [[c q] bb]. reflexivity. }
  split; [|split; [|split; [|split]]].
  - intros result. split; [apply H|].
    specialize (Hc result).
    unfold detections_of_result, boxes_count in *.
    destruct (boxes result) as [b|]; [|reflexivity].
    split; [|split; [exact Hc|]].
    + rewrite map_map, <- zip3_classes, map_map. apply map_ext.
      intros [[c q] bb]. reflexivity.
    + rewrite map_map, <- zip3_boxes. apply map_ext.
      intros [[c q] bb]. reflexivity.
  - intros result. unfold detections_of_results. simpl. apply app_nil_r.
  - intros earlier later. unfold detections_of_results. apply flat_map_app.
  - unfold detections_of_results.
    induction results as [|r rs IH]; simpl; [reflexivity|].
    now rewrite map_app, Hc, IH.
  - unfold detections_of_results.
    induction results as [|r rs IH]; simpl; [reflexivity|].
    now rewrite length_app, H, IH.
Qed.

Lemma detections_are_classified_witness :
  let d := mkDetection "Egg" "dairy" 1 (3 # 4) [5; 6; 7; 8]%Q in
  In d (detections_of_results Bench.names Bench.eggs) /\
  category d = _category_from_label (name d) /\
  quantity d = 1%Z /\
  PyStr.contains "_" (category d) = false.
Proof.
  intros d.
  assert (H : In d (detections_of_results Bench.names Bench.eggs)).
  { simpl. right. left. reflexivity. }
  split; [exact H|].
  exact (@detections_are_classified Bench.names Bench.eggs d H).
Defined.

(** ** Loops over detections with pairwise distinct keys *)

Section DictFoldFresh.
Variable V : Type.
Variable key : Detection -> string.
Variable entry : option V -> Detection -> V.
Variable step : PyDict.t V -> Detection -> PyDict.t V.
Hypothesis step_set :
  forall acc d,
    step acc d = PyDict.set (key d) (entry (PyDict.get (key d) acc) d) acc.

Lemma get_app_absent (k k' : string) (v : V) (acc : PyDict.t V) :
  PyDict.get k acc = None -> k <> k' ->
  PyDict.get k (acc ++ [(k', v)]) = None.
Proof.
  intros Hacc Hne. induction acc as [|[k1 v1] acc IH]; simpl in *.
  - now rewrite (proj2 (String.eqb_neq k k')).
  - destruct (String.eqb k k1); [discriminate | auto].
Qed.

Lemma fold_fresh (l : list Detection) (acc : PyDict.t V) :
  NoDup (map key l) ->
  (forall d, In d l -> PyDict.get (key d) acc = None) ->
  fold_left step l acc = acc ++ map (fun d => (key d, entry None d)) l.
Proof.
  revert acc; induction l as [|d l IH]; intros acc Hnd Hacc; simpl.
  - now rewrite app_nil_r.
  - inversion Hnd as [|? ? Hnotin Hnd']; subst.
    rewrite step_set, (Hacc d) by now left.
    rewrite set_absent by (apply Hacc; now left).
    rewrite IH; [now rewrite <- app_assoc | assumption |].
    intros d' Hd'. apply get_app_absent; [apply Hacc; now right|].
    intros Heq. apply Hnotin. rewrite <- Heq. now apply in_map.
Qed.

End DictFoldFresh.

Lemma length_first_occurrences (ks : list string) :
  (List.length (first_occurrences ks) <= List.length ks)%nat.
Proof.
  induction ks as [|k ks IH]; simpl; [lia|].
  pose proof (filter_length_le (fun k' => negb (String.eqb k' k))
                (first_occurrences ks)). lia.
Qed.

(** ** Aggregator, further *)

(** The groups come in the order in which their keys first occur
    among the detections, there are never more groups than
    detections, and only an empty input gives an empty result. *)
Theorem groups_in_first_seen_order (dets : list Detection) :
  map grouped_key (_group_and_count_detections dets)
    = first_occurrences (map group_key dets) /\
  (List.length (_group_and_count_detections dets) <= List.length dets)%nat /\
  (_group_and_count_detections dets = [] <-> dets = []).
Proof.
  assert (Hk : map grouped_key (_group_and_count_detections dets)
               = first_occurrences (map group_key dets))
    by apply group_keys_in_order.
  split; [exact Hk|]. split.
  - rewrite <- (length_map grouped_key), Hk, <- (length_map group_key dets).
    apply length_first_occurrences.
  - split; intros H.
    + rewrite H in Hk. destruct dets; [reflexivity | discriminate Hk].
    + now subst.
Qed.

(** Detections with pairwise distinct keys are not fused: each becomes
    a group of quantity one with its own name, category, confidence
    and bbox, in the same order. *)
Theorem distinct_keys_group_one_to_one (dets : list Detection) :
  NoDup (map group_key dets) ->
  _group_and_count_detections dets = map single_group dets.
Proof.
  intros Hnd. unfold _group_and_count_detections.
  rewrite (fold_fresh group_key group_entry group_step group_step_set)
    by (auto; reflexivity).
  unfold PyDict.values. simpl. rewrite map_map. reflexivity.
Qed.

Lemma distinct_keys_group_one_to_one_witness :
  let dets := [Bench.det "Egg" (9 # 10); Bench.det "Milk" (1 # 2)] in
  NoDup (map group_key dets) /\
  _group_and_count_detections dets =
  [mkGrouped "Egg" "dairy" 1 "item" (9 # 10) [];
   mkGrouped "Milk" "dairy" 1 "item" (1 # 2) []].
Proof.
  intros dets.
  assert (H : NoDup (map group_key dets)).
  { repeat constructor; simpl; intuition discriminate. }
  split; [exact H|]. exact (distinct_keys_group_one_to_one dets H).
Defined.

(** ** ResultFuser, further *)

Lemma winner_max (ms : list Detection) (w : Detection) :
  winner ms = Some w ->
  In w ms /\ forall x, In x ms -> (confidence x <= confidence w)%Q.
Proof.
  unfold winner. destruct ms as [|first later]; [discriminate|].
  intros H; injection H as <-.
  destruct (first_max_split first later) as [pre [post [Heq [Hpre Hpost]]]].
  rewrite Heq. split; [apply in_elt|].
  intros x Hx. apply in_app_or in Hx. destruct Hx as [Hx|[<-|Hx]].
  - apply Qlt_le_weak. now apply Hpre.
  - apply Qle_refl.
  - now apply Hpost.
Qed.

Lemma merge_keys_in_order (primary secondary : list Detection) :
  map merge_key (merge_detections primary secondary)
  = first_occurrences (map merge_key (primary ++ secondary)).
Proof.
  apply map_by_key with
    (h := fun k => winner (members merge_key k (primary ++ secondary))).
  - apply merge_by_key.
  - intros k x _ Hw. now destruct (winner_key _ _ Hw).
Qed.

(** The merge invents nothing and loses no name: every entry is one
    of the given detections, no two entries share a lower-cased name,
    and every given detection is covered by the entry of its
    lower-cased name, whose confidence is at least its own. *)
Theorem merge_covers_every_name (primary secondary : list Detection) :
  let lowercase_name := fun d : Detection => PyStr.lower (name d) in
  let out := merge_detections primary secondary in
  (forall d, In d out -> In d (primary ++ secondary)) /\
  NoDup (map lowercase_name out) /\
  (forall d, In d (primary ++ secondary) ->
     exists d', In d' out /\
                PyStr.lower (name d') = PyStr.lower (name d) /\
                (confidence d <= confidence d')%Q) /\
  (List.length out <= List.length primary + List.length secondary)%nat.
Proof.
  intros lowercase_name out. subst lowercase_name out.
  change (fun d : Detection => PyStr.lower (name d)) with merge_key.
  assert (Hk : map merge_key (merge_detections primary secondary)
               = first_occurrences (map merge_key (primary ++ secondary)))
    by apply merge_keys_in_order.
  split; [|split; [|split]].
  - intros d Hd. apply in_merge in Hd. now destruct (winner_key _ _ Hd).
  - rewrite Hk. apply first_occurrences_NoDup.
  - intros d Hd.
    destruct (winner_of_key (merge_key d) (primary ++ secondary)) as [w Hw];
      [now apply in_map|].
    destruct (winner_key _ _ Hw) as [_ Hkey].
    destruct (winner_max _ Hw) as [_ Hmax].
    exists w. split; [|split; [exact Hkey|]].
    + apply in_merge. now rewrite Hkey.
    + apply Hmax. now apply members_In.
  - rewrite <- (length_map merge_key), Hk, <- length_app,
      <- (length_map merge_key (primary ++ secondary)).
    apply length_first_occurrences.
Qed.

Lemma merge_covers_every_name_witness :
  let primary := [Bench.det "Egg" (1 # 2)] in
  let secondary := [Bench.det "egg" (3 # 4); Bench.det "Milk" (1 # 4)] in
  merge_detections primary secondary
    = [Bench.det "egg" (3 # 4); Bench.det "Milk" (1 # 4)] /\
  exists d', In d' (merge_detections primary secondary) /\
             PyStr.lower (name d') = "milk" /\
             (1 # 4 <= confidence d')%Q.
Proof.
  intros primary secondary. split; [reflexivity|].
  apply (proj1 (proj2 (proj2 (merge_covers_every_name primary secondary)))
           (Bench.det "Milk" (1 # 4))).
  right. right. left. reflexivity.
Defined.

Lemma merge_step_fresh (l : list Detection) :
  NoDup (map merge_key l) ->
  PyDict.values (fold_left merge_step l []) = l.
Proof.
  intros Hnd.
  rewrite (fold_fresh merge_key merge_entry merge_step merge_step_set)
    by (auto; reflexivity).
  unfold PyDict.values. simpl. rewrite map_map. simpl. apply map_id.
Qed.

(** Lists that share no lower-cased name, within or across, are merged
    by concatenation, and merging is idempotent: merging a merge
    result with nothing gives it back. *)
Theorem merge_is_idempotent (primary secondary : list Detection) :
  (NoDup (map merge_key (primary ++ secondary)) ->
   merge_detections primary secondary = primary ++ secondary) /\
  merge_detections (merge_detections primary secondary) []
    = merge_detections primary secondary.
Proof.
  split.
  - intros Hnd. unfold merge_detections. now apply merge_step_fresh.
  - unfold merge_detections at 1. rewrite app_nil_r. apply merge_step_fresh.
    rewrite merge_keys_in_order. apply first_occurrences_NoDup.
Qed.

Lemma merge_is_idempotent_witness :
  let primary := [Bench.det "Egg" (1 # 2)] in
  let secondary := [Bench.det "Milk" (1 # 4)] in
  NoDup (map merge_key (primary ++ secondary)) /\
  merge_detections primary secondary = primary ++ secondary.
Proof.
  intros primary secondary.
  assert (H : NoDup (map merge_key (primary ++ secondary))).
  { repeat constructor; simpl; intuition discriminate. }
  split; [exact H|].
  exact (proj1 (merge_is_idempotent primary secondary) H).
Defined.

Lemma members_swap (k : string) (l1 l2 : list Detection) (d : Detection) :
  In d (members merge_key k (l1 ++ l2)) <-> In d (members merge_key k (l2 ++ l1)).
Proof. rewrite !members_In, !in_app_iff. tauto. Qed.

(** Which detector is called primary decides ties and which box is
    kept, not the names or the confidences: merging in the other order
    gives, for every name, an entry of equal confidence. *)
Theorem merge_confidence_symmetric (primary secondary : list Detection)
  (d : Detection) :
  In d (merge_detections primary secondary) ->
  exists d', In d' (merge_detections secondary primary) /\
             merge_key d' = merge_key d /\
             (confidence d' == confidence d)%Q.
Proof.
  intros Hd. apply in_merge in Hd.
  destruct (winner_max _ Hd) as [Hin Hmax].
  apply members_swap in Hin.
  destruct (winner_of_key (merge_key d) (secondary ++ primary)) as [w Hw].
  { apply members_In in Hin. apply in_map_iff. exists d. tauto. }
  destruct (winner_key _ _ Hw) as [_ Hkey].
  destruct (winner_max _ Hw) as [Hinw Hmaxw].
  exists w. split; [|split; [assumption|]].
  - apply in_merge. now rewrite Hkey.
  - apply Qle_antisym.
    + apply Hmax. now apply members_swap.
    + now apply Hmaxw.
Qed.

Lemma merge_confidence_symmetric_witness :
  let primary := [Bench.det "Egg" (1 # 2)] in
  let secondary := [Bench.det "egg" (3 # 4); Bench.det "Milk" (1 # 4)] in
  exists d', In d' (merge_detections secondary primary) /\
             merge_key d' = "egg" /\ (confidence d' == 3 # 4)%Q.
Proof.
  intros primary secondary.
  apply (@merge_confidence_symmetric primary secondary (Bench.det "egg" (3 # 4))).
  left. reflexivity.
Defined.

(* ================================================================== *)
(** ** OrchestrationPolicy, further *)

Ltac settle_fields :=
  repeat (progress
            (cbn [is_empty self trace negb andb orb fst snd
                  _primary_model _secondary_model _use_ensemble
                  _primary_class_names _secondary_class_names
                  _primary_model_error _secondary_model_error];
             rewrite ?andb_false_r, ?andb_true_r)).

(** Case analysis on what the detectors answer, as the service gets
    to call them. *)
Ltac split_answers :=
  repeat (settle_fields;
          match goal with
          | |- context [predict ?m ?i] => destruct (predict m i) eqn:?
          end);
  settle_fields.

Section OrchestrationMore.
Variable Image : Type.
Variable Image_open : list Byte.byte -> exn + Image.
Implicit Types (svc : DetectionService Image) (tr : list event)
  (image_bytes : list Byte.byte) (image : Image).

(** When the primary detector answers and the ensemble is not in
    effect, its detections are the result and the secondary detector
    is not run, bound or not. *)
Theorem primary_answer_is_final svc tr image_bytes image
  (primary : YOLO Image) (results : list Result) :
  image_bytes <> [] ->
  Image_open image_bytes = inr image ->
  _primary_model svc = Some primary ->
  _use_ensemble svc && secondary_model_ready svc = false ->
  predict primary image = inr results ->
  detect_ingredients Image_open image_bytes (mkWorld svc tr) =
  (Return (detections_of_results (_primary_class_names svc) results),
   mkWorld svc (tr ++ [Predict (weights primary)])).
Proof.
  intros Hne Hopen Hp Hens Hpf.
  destruct image_bytes as [|b bs]; [contradiction|].
  unfold secondary_model_ready, is_not_None in Hens.
  destruct (_secondary_model svc) as [sm|] eqn:Hs;
    rewrite ?andb_true_r, ?andb_false_r in Hens;
    run_with ltac:(rewrite ?Hp, ?Hs, ?Hopen, ?Hens, ?andb_false_r, ?Hpf);
    reflexivity.
Qed.

(** With only the secondary slot bound, the secondary detector alone
    is run.  Its answer is the result; its exception is reported as
    "Both primary and secondary models failed", chained from it,
    although no primary detector was there to fail. *)
Theorem secondary_only_service svc tr image_bytes image (secondary : YOLO Image) :
  image_bytes <> [] ->
  Image_open image_bytes = inr image ->
  _primary_model svc = None ->
  _secondary_model svc = Some secondary ->
  (forall results,
     predict secondary image = inr results ->
     detect_ingredients Image_open image_bytes (mkWorld svc tr) =
     (Return (detections_of_results (_secondary_class_names svc) results),
      mkWorld svc (tr ++ [Predict (weights secondary)]))) /\
  (forall exc,
     predict secondary image = inl exc ->
     detect_ingredients Image_open image_bytes (mkWorld svc tr) =
     (Raise (DetectionModelNotReady
               ("Both primary and secondary models failed. Last error: "
                ++ exn_str exc)
               (From exc)),
      mkWorld svc (tr ++ [Predict (weights secondary)]))).
Proof.
  intros Hne Hopen Hp Hs.
  destruct image_bytes as [|b bs]; [contradiction|].
  split; [intros results Hsf | intros exc Hsf];
    run_with ltac:(rewrite ?Hp, ?Hs, ?Hopen, ?andb_false_r, ?Hsf);
    reflexivity.
Qed.

(** A payload that does not decode makes both entry points raise
    [DetectionModelNotReady] with the decoder's message, chained from
    the decoder's exception, before any detector is run. *)
Theorem undecodable_image svc tr image_bytes (exc : exn) :
  image_bytes <> [] ->
  model_ready svc = true ->
  Image_open image_bytes = inl exc ->
  let failure :=
    (Raise (DetectionModelNotReady ("Failed to decode image: " ++ exn_str exc)
                                   (From exc)),
     mkWorld svc tr) in
  detect_ingredients Image_open image_bytes (mkWorld svc tr) = failure /\
  detect_ingredients_both_models Image_open image_bytes (mkWorld svc tr)
    = (Raise (DetectionModelNotReady ("Failed to decode image: " ++ exn_str exc)
                                     (From exc)),
       mkWorld svc tr).
Proof.
  intros Hne Hready Hopen failure. subst failure.
  destruct image_bytes as [|b bs]; [contradiction|].
  unfold model_ready, is_not_None in Hready.
  destruct (_primary_model svc) as [pm|] eqn:Hp;
    destruct (_secondary_model svc) as [sm|] eqn:Hs; try discriminate;
    split; run_with ltac:(rewrite ?Hp, ?Hs, ?Hopen); reflexivity.
Qed.

(** The ensemble flag matters only when both slots are bound: with a
    slot missing, a service behaves the same whatever the flag says. *)
Theorem ensemble_flag_needs_both_slots svc tr image_bytes (flag : bool) :
  primary_model_ready svc && secondary_model_ready svc = false ->
  fst (detect_ingredients Image_open image_bytes
         (mkWorld (with_ensemble svc flag) tr))
  = fst (detect_ingredients Image_open image_bytes (mkWorld svc tr)) /\
  trace (snd (detect_ingredients Image_open image_bytes
                (mkWorld (with_ensemble svc flag) tr)))
  = trace (snd (detect_ingredients Image_open image_bytes (mkWorld svc tr))).
Proof.
  destruct svc as [pm sm pn sn pe se ens].
  unfold with_ensemble, primary_model_ready, secondary_model_ready, is_not_None.
  cbn [_primary_model _secondary_model _primary_class_names
       _secondary_class_names _primary_model_error _secondary_model_error].
  intros Hb. destruct image_bytes as [|b bs]; [split; reflexivity|].
  destruct pm as [pm|]; destruct sm as [sm|]; try discriminate Hb;
    run_service; settle_fields;
    destruct (Image_open (b :: bs)); split_answers; split; reflexivity.
Qed.

(** *** What a call can do at most *)

Ltac open_service svc :=
  destruct svc as [pm sm pn sn pe se ens];
  unfold ensemble_effective, bound_slots, primary_model_ready,
    secondary_model_ready, is_not_None;
  cbn [_primary_model _secondary_model _use_ensemble];
  destruct pm as [pm|]; destruct sm as [sm|]; destruct ens.

Ltac close_trace :=
  rewrite <- ?app_assoc;
  first [ exists []; split; [now rewrite app_nil_r | cbn; lia]
        | eexists; split; [reflexivity | cbn; lia] ].

Ltac pick_runs :=
  first [ exists true, true; reflexivity | exists true, false; reflexivity
        | exists false, true; reflexivity | exists false, false; reflexivity ].

(** A detection call only appends to the trace, and the detectors it
    runs are, in this order, the primary slot's at most once and then
    the secondary slot's at most once: no detector is run twice, none
    that is not bound to a slot, and never the secondary before the
    primary. *)
Theorem detect_runs_each_detector_at_most_once svc tr image_bytes :
  exists evs,
    trace (snd (detect_ingredients Image_open image_bytes (mkWorld svc tr)))
      = tr ++ evs /\
    (count_predicts evs <= bound_slots svc)%nat /\
    exists ran_primary ran_secondary : bool,
      filter is_predict evs =
      (if ran_primary then slot_predict (_primary_model svc) else []) ++
      (if ran_secondary then slot_predict (_secondary_model svc) else []).
Proof.
  destruct image_bytes as [|b bs].
  { exists []. split; [now rewrite app_nil_r|]. split; [cbn; lia|].
    exists false, false. reflexivity. }
  open_service svc; run_service; settle_fields;
    destruct (Image_open (b :: bs)); split_answers; rewrite <- ?app_assoc;
    first [ exists []; split; [now rewrite app_nil_r|]
          | eexists; split; [reflexivity|] ];
    (split; [cbn; lia | pick_runs]).
Qed.

(** The side-by-side call appends to the trace as well, and when it
    returns the detectors it has run are exactly the primary slot's,
    if bound, followed by the secondary slot's, if bound: every bound
    detector once, whether or not the other one raised. *)
Theorem both_models_runs_every_bound_detector svc tr image_bytes :
  exists evs,
    trace (snd (detect_ingredients_both_models Image_open image_bytes
                  (mkWorld svc tr))) = tr ++ evs /\
    (count_predicts evs <= bound_slots svc)%nat /\
    forall r w',
      detect_ingredients_both_models Image_open image_bytes (mkWorld svc tr)
        = (Return r, w') ->
      filter is_predict evs =
        slot_predict (_primary_model svc) ++ slot_predict (_secondary_model svc) /\
      count_predicts evs = bound_slots svc.
Proof.
  destruct image_bytes as [|b bs].
  { exists []. split; [now rewrite app_nil_r|]. split; [cbn; lia|].
    intros r w' H. discriminate H. }
  open_service svc; run_service; settle_fields;
    destruct (Image_open (b :: bs)); split_answers; rewrite <- ?app_assoc;
    first [ exists []; split; [now rewrite app_nil_r|]
          | eexists; split; [reflexivity|] ];
    (split; [cbn; lia
            | intros r w' H; first [discriminate H | split; reflexivity]]).
Qed.

(** The side-by-side call leaves the registry as it found it. *)
Theorem both_models_leaves_registry image_bytes (w : World Image) :
  self (snd (detect_ingredients_both_models Image_open image_bytes w)) = self w.
Proof. apply keeps_detect_both. Qed.

(** *** What a caller has to catch *)

Lemma detect_only_not_ready svc tr image_bytes :
  ensemble_effective svc = false ->
  raises_only_not_ready
    (fst (detect_ingredients Image_open image_bytes (mkWorld svc tr))).
Proof.
  destruct image_bytes as [|b bs]; [intros _; reflexivity|].
  intros Heff; revert Heff;
    open_service svc; try discriminate; intros _;
    run_service; settle_fields;
    destruct (Image_open (b :: bs)); split_answers;
    first [reflexivity | exact I].
Qed.

Lemma both_only_not_ready svc tr image_bytes :
  raises_only_not_ready
    (fst (detect_ingredients_both_models Image_open image_bytes (mkWorld svc tr))).
Proof.
  destruct image_bytes as [|b bs]; [reflexivity|].
  open_service svc; run_service; settle_fields;
    destruct (Image_open (b :: bs)); split_answers;
    first [reflexivity | exact I].
Qed.

(** Of the exceptions a handler for [Exception] would see, the only
    one that leaves [detect_ingredients] outside the ensemble path is
    [DetectionModelNotReady], and the only one that leaves
    [detect_ingredients_both_models] at all: an [Exception] of the
    decoder or of a detector is retried, wrapped or swallowed on the
    way. *)
Theorem failures_are_not_ready svc tr image_bytes :
  (ensemble_effective svc = false ->
   forall (e : exn) (w' : World Image),
     detect_ingredients Image_open image_bytes (mkWorld svc tr) = (Raise e, w') ->
     is_not_ready e = true) /\
  (forall (e : exn) (w' : World Image),
     detect_ingredients_both_models Image_open image_bytes (mkWorld svc tr)
       = (Raise e, w') ->
     is_not_ready e = true).
Proof.
  split.
  - intros Heff e w' H.
    pose proof (detect_only_not_ready svc tr image_bytes Heff) as Hnr.
    rewrite H in Hnr. exact Hnr.
  - intros e w' H.
    pose proof (both_only_not_ready svc tr image_bytes) as Hnr.
    rewrite H in Hnr. exact Hnr.
Qed.

(** *** The two entry points agree *)

(** Whatever [detect_ingredients] returns outside the ensemble path,
    the side-by-side call returns it grouped: as the first view when
    the primary detector answered, and otherwise as the second view
    beside an empty first one. *)
Theorem both_models_groups_what_detect_returns svc tr image_bytes
  (dets : list Detection) (w1 : World Image) :
  ensemble_effective svc = false ->
  detect_ingredients Image_open image_bytes (mkWorld svc tr) = (Return dets, w1) ->
  exists r w2,
    detect_ingredients_both_models Image_open image_bytes (mkWorld svc tr)
      = (Return r, w2) /\
    (model1 r = _group_and_count_detections dets \/
     (model1 r = [] /\ model2 r = _group_and_count_detections dets)).
Proof.
  destruct image_bytes as [|b bs]; [intros _ H; discriminate H|].
  intros Heff; revert Heff.
  open_service svc; try discriminate; intros _;
    run_service; settle_fields;
    destruct (Image_open (b :: bs)); split_answers;
    intros H; try discriminate H; injection H as <- <-;
    do 2 eexists; (split; [reflexivity|]); cbn [model1 model2];
    first [left; reflexivity | right; split; reflexivity].
Qed.

(** *** The ensemble switch *)

(** Switching never raises and writes the flag only: it is on
    afterwards exactly when it was asked for and both slots are bound,
    a warning being logged when it was asked for in vain.  So a flag
    that is on implies two bound slots, the guard of
    [detect_ingredients] then adds nothing to the flag, and switching
    twice is switching once. *)
Theorem ensemble_switch_needs_both svc tr (enabled : bool) :
  let both := primary_model_ready svc && secondary_model_ready svc in
  let svc' := with_ensemble svc (enabled && both) in
  set_ensemble_mode enabled (mkWorld svc tr) =
  (Return tt,
   mkWorld svc'
     (if enabled && negb both
      then tr ++ [Warning "Ensemble mode requested but both models not available."]
      else tr)) /\
  (ensemble_mode svc' = true -> bound_slots svc' = 2%nat) /\
  ensemble_effective svc' = ensemble_mode svc' /\
  self (snd (set_ensemble_mode enabled (mkWorld svc' tr))) = svc'.
Proof.
  intros both svc'. subst both svc'.
  destruct svc as [pm sm pn sn pe se ens].
  unfold set_ensemble_mode, assign, bind, read, emit, ret, with_ensemble,
    ensemble_effective, ensemble_mode, bound_slots, primary_model_ready,
    secondary_model_ready, is_not_None.
  destruct pm as [pm|]; destruct sm as [sm|]; destruct enabled;
    cbn; repeat split; intros; try reflexivity; discriminate.
Qed.

End OrchestrationMore.

(* ================================================================== *)
(** ** Service start *)

Section LoadingFacts.
Variable Image : Type.
Variable Path : Type.
Variable host : Host Image Path.
Implicit Types (st : LoadState Image) (is_primary : bool).

(** What one load does to its slot, and that it leaves the other slot
    and the ensemble flag alone. *)
Lemma load_single_model_effect (model_path yaml_path : Path) is_primary st :
  slot_untouched is_primary (fst st) ->
  let st' := _load_single_model host model_path yaml_path is_primary st in
  slot_settled is_primary (fst st') /\
  slot_model (negb is_primary) (fst st') = slot_model (negb is_primary) (fst st) /\
  slot_names (negb is_primary) (fst st') = slot_names (negb is_primary) (fst st) /\
  slot_error (negb is_primary) (fst st') = slot_error (negb is_primary) (fst st) /\
  _use_ensemble (fst st') = _use_ensemble (fst st) /\
  (path_exists host model_path = true ->
   match YOLO_new host (path_str host model_path) with
   | inr model =>
       slot_model is_primary (fst st') = Some model /\
       slot_names is_primary (fst st') = fst (load_class_names host yaml_path st)
   | inl exc =>
       slot_error is_primary (fst st') =
       Some ("Failed to load detection model from "
             ++ path_str host model_path ++ ": " ++ exn_str exc)%string
   end) /\
  (path_exists host model_path = false ->
   slot_error is_primary (fst st') =
   Some ("Model weights not found at " ++ path_str host model_path)%string).
Proof.
  destruct st as [s logged]. intros [Hm [Hn He]]. cbn [fst] in *.
  unfold _load_single_model, load_class_names, slot_settled.
  destruct (path_exists host model_path) eqn:Hw; cbn [negb].
  - destruct (path_exists host yaml_path);
      [destruct (read_names host yaml_path) as [e|names];
       [|destruct (parse_names names) as [e|cn]]|];
      destruct (YOLO_new host (path_str host model_path)) as [e'|model];
      destruct is_primary; cbn in *;
      repeat split; try discriminate; try assumption;
      first [ left; split; [discriminate | assumption]
            | right; repeat split; assumption ].
  - destruct is_primary; cbn in *;
      repeat split; try discriminate; try assumption;
      right; repeat split; assumption.
Qed.

Lemma log_fst (r : log_record) st : fst (log r st) = fst st.
Proof. reflexivity. Qed.

Lemma auto_detect_effect (candidates : list Path) st :
  slot_untouched false (fst st) ->
  let st' := auto_detect_secondary host candidates st in
  slot_model true (fst st') = slot_model true (fst st) /\
  slot_names true (fst st') = slot_names true (fst st) /\
  slot_error true (fst st') = slot_error true (fst st) /\
  _use_ensemble (fst st') = _use_ensemble (fst st) /\
  match find (path_exists host) candidates with
  | None => slot_untouched false (fst st')
  | Some sec_path =>
      slot_settled false (fst st') /\
      match YOLO_new host (path_str host sec_path) with
      | inr model => slot_model false (fst st') = Some model
      | inl exc =>
          slot_error false (fst st') =
          Some ("Failed to load detection model from "
                ++ path_str host sec_path ++ ": " ++ exn_str exc)%string
      end
  end.
Proof.
  intros Hu. induction candidates as [|p rest IH]; cbn [auto_detect_secondary find].
  - rewrite log_fst. repeat split; apply Hu.
  - destruct (path_exists host p) eqn:Hp; [|exact IH].
    rewrite log_fst.
    destruct (@load_single_model_effect p (secondary_yaml_path host) false st Hu)
      as [Hs [Hm [Hn [He [Hf [Hy _]]]]]].
    cbn [negb] in *. repeat split; try assumption.
    specialize (Hy Hp).
    destruct (YOLO_new host (path_str host p)); [assumption | apply Hy].
Qed.

(** The state [_load_models] leaves when the detector package is
    installed. *)
Lemma load_models_effect :
  yolo_installed host = true ->
  let fresh := mkService None None [] [] None None (CV_USE_ENSEMBLE host) in
  let primary_path := in_models_dir host (CV_PRIMARY_MODEL host) in
  let s := fst (_load_models host (fresh, [])) in
  _use_ensemble s = CV_USE_ENSEMBLE host /\
  slot_settled true s /\
  (slot_settled false s \/ slot_untouched false s) /\
  (path_exists host primary_path = true ->
   match YOLO_new host (path_str host primary_path) with
   | inr model =>
       _primary_model s = Some model /\
       _primary_class_names s =
       fst (load_class_names host (in_models_dir host "data.yaml") (fresh, []))
   | inl exc =>
       _primary_model_error s =
       Some ("Failed to load detection model from "
             ++ path_str host primary_path ++ ": " ++ exn_str exc)%string
   end) /\
  (path_exists host primary_path = false ->
   _primary_model_error s =
   Some ("Model weights not found at " ++ path_str host primary_path)%string) /\
  (is_truthy (CV_SECONDARY_MODEL host) = false ->
   match find (path_exists host) (secondary_paths host) with
   | None => slot_untouched false s
   | Some sec_path =>
       match YOLO_new host (path_str host sec_path) with
       | inr model => _secondary_model s = Some model
       | inl exc =>
           _secondary_model_error s =
           Some ("Failed to load detection model from "
                 ++ path_str host sec_path ++ ": " ++ exn_str exc)%string
       end
   end).
Proof.
  intros Hy fresh primary_path s. subst s. unfold _load_models.
  rewrite Hy. cbn [negb].
  assert (Hfresh : forall b, slot_untouched b (fst (fresh, @nil log_record)))
    by (intros []; repeat split).
  destruct (@load_single_model_effect primary_path
              (in_models_dir host "data.yaml") true (fresh, []) (Hfresh true))
    as [Hs [Hm [Hn [He [Hf [Hok Hmiss]]]]]].
  fold primary_path.
  set (st1 := _load_single_model host primary_path
                (in_models_dir host "data.yaml") true (fresh, [])) in *.
  cbn [negb fst] in Hm, Hn, He, Hf.
  assert (Hu1 : slot_untouched false (fst st1)).
  { unfold slot_untouched. rewrite Hm, Hn, He. repeat split. }
  assert (Hsecond : forall name,
    let st2 := _load_single_model host (in_models_dir host name)
                 (secondary_yaml_path host) false st1 in
    _use_ensemble (fst st2) = CV_USE_ENSEMBLE host /\
    slot_settled true (fst st2) /\ slot_settled false (fst st2) /\
    slot_model true (fst st2) = slot_model true (fst st1) /\
    slot_names true (fst st2) = slot_names true (fst st1) /\
    slot_error true (fst st2) = slot_error true (fst st1)).
  { intros name st2.
    destruct (@load_single_model_effect (in_models_dir host name)
                (secondary_yaml_path host) false st1 Hu1)
      as [Hs2 [Hm2 [Hn2 [He2 [Hf2 _]]]]].
    fold st2 in Hs2, Hm2, Hn2, He2, Hf2. cbn [negb] in *.
    repeat split; try assumption; [rewrite Hf2, Hf; reflexivity|].
    unfold slot_settled in *. rewrite Hm2, Hn2, He2. exact Hs. }
  destruct (@auto_detect_effect (secondary_paths host) st1 Hu1)
    as [Am [An [Ae [Af Afound]]]].
  set (st3 := auto_detect_secondary host (secondary_paths host) st1) in *.
  assert (Hprimary : forall st2,
    slot_model true (fst st2) = slot_model true (fst st1) ->
    slot_names true (fst st2) = slot_names true (fst st1) ->
    slot_error true (fst st2) = slot_error true (fst st1) ->
    (path_exists host primary_path = true ->
     match YOLO_new host (path_str host primary_path) with
     | inr model =>
         _primary_model (fst st2) = Some model /\
         _primary_class_names (fst st2) =
         fst (load_class_names host (in_models_dir host "data.yaml") (fresh, []))
     | inl exc =>
         _primary_model_error (fst st2) =
         Some ("Failed to load detection model from "
               ++ path_str host primary_path ++ ": " ++ exn_str exc)%string
     end) /\
    (path_exists host primary_path = false ->
     _primary_model_error (fst st2) =
     Some ("Model weights not found at " ++ path_str host primary_path)%string)).
  { intros st2 E1 E2 E3. cbn [slot_model slot_names slot_error] in *.
    rewrite E1, E2, E3. split; [|exact Hmiss].
    intros Hp. specialize (Hok Hp).
    destruct (YOLO_new host (path_str host primary_path)); exact Hok. }
  destruct (CV_SECONDARY_MODEL host) as [[|c n]|] eqn:Hcv; cbn [is_truthy].
  - (* empty name: auto-detect *)
    destruct (Hprimary st3 Am An Ae) as [P1 P2].
    split; [rewrite Af, Hf; reflexivity|]. split.
    { unfold slot_settled in *. rewrite Am, An, Ae. exact Hs. }
    split.
    { destruct (find (path_exists host) (secondary_paths host));
        [left; apply Afound | right; exact Afound]. }
    split; [exact P1|]. split; [exact P2|]. intros _.
    destruct (find (path_exists host) (secondary_paths host));
      [apply Afound | exact Afound].
  - (* configured secondary *)
    destruct (Hsecond (String c n)) as [S1 [S2 [S3 [S4 [S5 S6]]]]].
    destruct (Hprimary _ S4 S5 S6) as [P1 P2].
    split; [exact S1|]. split; [exact S2|]. split; [left; exact S3|].
    split; [exact P1|]. split; [exact P2|]. discriminate.
  - destruct (Hprimary st3 Am An Ae) as [P1 P2].
    split; [rewrite Af, Hf; reflexivity|]. split.
    { unfold slot_settled in *. rewrite Am, An, Ae. exact Hs. }
    split.
    { destruct (find (path_exists host) (secondary_paths host));
        [left; apply Afound | right; exact Afound]. }
    split; [exact P1|]. split; [exact P2|]. intros _.
    destruct (find (path_exists host) (secondary_paths host));
      [apply Afound | exact Afound].
Qed.

(** The constructor returns the loaded state with the ensemble flag
    settled. *)
Lemma init_result :
  let fresh := mkService None None [] [] None None (CV_USE_ENSEMBLE host) in
  let s := fst (_load_models host (fresh, [])) in
  _use_ensemble s = CV_USE_ENSEMBLE host ->
  exists logged,
    __init__ host =
    (Return (with_ensemble s (CV_USE_ENSEMBLE host && primary_model_ready s
                              && secondary_model_ready s)),
     logged).
Proof.
  intros fresh s Hf. unfold __init__. fold fresh.
  destruct (_load_models host (fresh, [])) as [s' logged] eqn:E.
  cbn [fst] in s. subst s. rewrite Hf.
  destruct (CV_USE_ENSEMBLE host) eqn:Hcv.
  - unfold set_ensemble_mode, assign, bind, read, emit, ret.
    cbn [self trace _use_ensemble andb].
    match goal with
    | |- context [if ?b then _ else _] => destruct b
    end; eexists; reflexivity.
  - exists logged. destruct s'. cbn in Hf. subst. reflexivity.
Qed.

(** A constructor that returns has built a service whose primary slot
    is either bound or carries a load error, never both nor neither;
    whose secondary slot, if bound, carries no error; whose unbound
    slots have no labels; and whose ensemble is on exactly when the
    settings ask for it and both slots got bound. *)
Theorem service_starts_with_settled_slots
  (svc : DetectionService Image) (logged : list log_record) :
  __init__ host = (Return svc, logged) ->
  primary_model_ready svc = negb (truthy (_primary_model_error svc)) /\
  (secondary_model_ready svc = true -> _secondary_model_error svc = None) /\
  (_primary_model svc = None -> _primary_class_names svc = []) /\
  (_secondary_model svc = None -> _secondary_class_names svc = []) /\
  ensemble_mode svc =
    CV_USE_ENSEMBLE host && primary_model_ready svc && secondary_model_ready svc.
Proof.
  set (fresh := mkService (Image := Image) None None [] [] None None
                  (CV_USE_ENSEMBLE host)).
  set (s := fst (_load_models host (fresh, []))).
  assert (Hs : _use_ensemble s = CV_USE_ENSEMBLE host /\
               slot_settled true s /\
               (slot_settled false s \/ slot_untouched false s)).
  { destruct (yolo_installed host) eqn:Hy.
    - destruct (load_models_effect Hy) as [H1 [H2 [H3 _]]]. auto.
    - subst s. unfold _load_models. rewrite Hy. cbn.
      split; [reflexivity|]. split; [|left]; right; repeat split. }
  destruct Hs as [Hf [Hp Hsec]].
  destruct (init_result Hf) as [logged0 Hinit]. fold fresh s in Hinit.
  intros Hret. rewrite Hinit in Hret. injection Hret as <- _.
  unfold ensemble_mode, primary_model_ready, secondary_model_ready, with_ensemble.
  cbn [_primary_model _secondary_model _primary_class_names
       _secondary_class_names _primary_model_error _secondary_model_error
       _use_ensemble].
  unfold slot_settled, slot_untouched in Hp, Hsec.
  cbn [slot_model slot_names slot_error] in Hp, Hsec.
  repeat split.
  - destruct Hp as [[Hm He]|[Hm [_ He]]].
    + rewrite He. destruct (_primary_model s); [reflexivity | contradiction].
    + now rewrite Hm, He.
  - destruct Hsec as [[[_ He]|[Hm _]]|[Hm _]]; [auto | |];
      rewrite Hm; discriminate.
  - destruct Hp as [[Hm _]|[_ [Hn _]]]; [contradiction | auto].
  - destruct Hsec as [[[Hm _]|[_ [Hn _]]]|[_ [Hn _]]]; [contradiction | auto | auto].
Qed.

(** Without the detector package nothing is bound, both slots carry
    the same install hint, the ensemble is off whatever the settings
    say, and every detection request is refused with that hint. *)
Theorem missing_package_binds_nothing
  (Image_open : list Byte.byte -> exn + Image) :
  yolo_installed host = false ->
  let hint := "Ultralytics package not installed. Run `pip install ultralytics`." in
  let svc := mkService (Image := Image) None None [] [] (Some hint) (Some hint)
               false in
  (exists logged, __init__ host = (Return svc, logged)) /\
  forall image_bytes tr,
    image_bytes <> [] ->
    detect_ingredients Image_open image_bytes (mkWorld svc tr) =
    (Raise (DetectionModelNotReady hint NoCause), mkWorld svc tr).
Proof.
  intros Hy hint svc. split.
  - unfold __init__, _load_models. rewrite Hy. cbn.
    destruct (CV_USE_ENSEMBLE host); eexists; reflexivity.
  - intros [|b bs] tr Hne; [contradiction | reflexivity].
Qed.



End LoadingFacts.

(** ** Label maps *)

Lemma class_name_set (k k' : Z) (v : string) (d : list (Z * string)) :
  class_name (names_set k v d) k' =
  if Z.eqb k' k then v else class_name d k'.
Proof.
  induction d as [|[k1 v1] d IH]; simpl.
  - reflexivity.
  - destruct (Z.eqb_spec k k1) as [->|Hk]; simpl.
    + destruct (Z.eqb k' k1); reflexivity.
    + rewrite IH. destruct (Z.eqb_spec k' k1) as [->|Hk'].
      * now rewrite (proj2 (Z.eqb_neq k1 k)) by congruence.
      * reflexivity.
Qed.

Lemma class_name_of_list (a : Z) (l : list string) (k : Z) :
  class_name (names_of_list a l) k =
  if Z.leb a k
  then nth (Z.to_nat (k - a)) l ("class_" ++ PyStr.of_Z k)%string
  else ("class_" ++ PyStr.of_Z k)%string.
Proof.
  revert a; induction l as [|n l IH]; intros a; cbn [names_of_list class_name].
  - destruct (Z.leb a k); [|reflexivity]. now destruct (Z.to_nat (k - a)).
  - destruct (Z.eqb_spec k a) as [->|Hne].
    + rewrite Z.leb_refl, Z.sub_diag. reflexivity.
    + rewrite IH. destruct (Z.leb_spec a k) as [Hle|Hgt].
      * rewrite (proj2 (Z.leb_le (a + 1) k)) by lia.
        replace (Z.to_nat (k - a)) with (S (Z.to_nat (k - (a + 1)))) by lia.
        reflexivity.
      * now rewrite (proj2 (Z.leb_gt (a + 1) k)) by lia.
Qed.

Lemma find_snoc {A} (f : A -> bool) (l : list A) (x : A) :
  find f (l ++ [x]) =
  match find f l with
  | Some y => Some y
  | None => if f x then Some x else None
  end.
Proof.
  induction l as [|y l IH]; simpl; [reflexivity|].
  destruct (f y); [reflexivity | exact IH].
Qed.

Lemma class_name_of_items (items : list ((exn + Z) * string))
  (acc d : list (Z * string)) (k : Z) :
  names_of_items items acc = inr d ->
  class_name d k =
  match find (fun it => match fst it with
                        | inr k' => Z.eqb k k'
                        | inl _ => false
                        end) (rev items) with
  | Some it => snd it
  | None => class_name acc k
  end.
Proof.
  revert acc; induction items as [|[[e|k1] v] rest IH]; intros acc H;
    cbn [names_of_items] in H.
  - injection H as ->. reflexivity.
  - discriminate H.
  - rewrite (IH _ H). cbn [rev]. rewrite find_snoc.
    destruct (find _ (rev rest)); [reflexivity|].
    cbn [fst snd]. rewrite class_name_set. destruct (Z.eqb k k1); reflexivity.
Qed.

(** Looking a class index up in a parsed label map: a list of names
    answers with the name at that position, a mapping with the value
    of the last item whose key is that integer, and either answers
    with the synthetic [class_<index>] when there is none. *)
Theorem label_map_lookup :
  (forall (names : list string) (k : Z),
     class_name (names_of_list 0 names) k =
     if Z.leb 0 k
     then nth (Z.to_nat k) names ("class_" ++ PyStr.of_Z k)%string
     else ("class_" ++ PyStr.of_Z k)%string) /\
  (forall (items : list ((exn + Z) * string)) (d : list (Z * string)) (k : Z),
     parse_names (NamesDict items) = inr d ->
     class_name d k =
     match find (fun it => match fst it with
                           | inr k' => Z.eqb k k'
                           | inl _ => false
                           end) (rev items) with
     | Some it => snd it
     | None => ("class_" ++ PyStr.of_Z k)%string
     end) /\
  (forall (items : list ((exn + Z) * string)) (e : exn) (v : string),
     In (inl e, v) items -> exists e', parse_names (NamesDict items) = inl e').
Proof.
  split; [|split].
  - intros names k. rewrite class_name_of_list, Z.sub_0_r. reflexivity.
  - intros items d k H. unfold parse_names in H.
    rewrite (class_name_of_items items [] k H). reflexivity.
  - intros items e v Hin. unfold parse_names. generalize (@nil (Z * string)).
    induction items as [|[[e1|k1] v1] rest IH]; intros acc;
      [contradiction | eexists; reflexivity |].
    destruct Hin as [Hin|Hin]; [discriminate Hin|].
    cbn [names_of_items]. now apply IH.
Qed.

Lemma label_map_lookup_witness :
  parse_names (NamesDict [(inr 1%Z, "Egg"); (inr 0%Z, "Milk"); (inr 1%Z, "Tomato")])
    = inr [(1%Z, "Tomato"); (0%Z, "Milk")] /\
  class_name [(1%Z, "Tomato"); (0%Z, "Milk")] 1 = "Tomato" /\
  exists e', parse_names (NamesDict [(inr 0%Z, "Egg");
                                     (inl (Exception "invalid literal"), "Milk")])
             = inl e'.
Proof.
  split; [reflexivity|]. split.
  - exact (proj1 (proj2 label_map_lookup)
             [(inr 1%Z, "Egg"); (inr 0%Z, "Milk"); (inr 1%Z, "Tomato")]
             [(1%Z, "Tomato"); (0%Z, "Milk")] 1%Z eq_refl).
  - apply (proj2 (proj2 label_map_lookup) _ (Exception "invalid literal") "Milk").
    right. left. reflexivity.
Defined.

(* ================================================================== *)
(** ** The scan endpoint *)




(** When the primary detector finds nothing or cannot be used, the
    items the scan goes on with are those of the secondary view;
    otherwise those of the primary view. *)
Example scan_items_fall_back :
  let w := Bench.world (Some (Bench.failing "best.pt" "primary exploded"))
                       (Some (Bench.finds_eggs "best2.pt")) false in
  match fst (fst (scan_detection_stage Bench.Image_open Bench.payload w)) with
  | inr items =>
      model1_items items = [] /\ detected_items items = model2_items items /\
      List.length (model2_items items) = 2%nat
  | inl _ => False
  end.
Proof. cbn. repeat split. Qed.

(* ================================================================== *)
(** ** The further properties on the bench *)

Lemma primary_answer_is_final_witness :
  let svc := Bench.service (Some (Bench.finds_eggs "best.pt"))
               (Some (Bench.failing "best2.pt" "secondary exploded")) false in
  detect_ingredients Bench.Image_open Bench.payload (mkWorld svc [])
  = (Return (detections_of_results Bench.names Bench.eggs),
     mkWorld svc [Predict "best.pt"]).
Proof.
  intros svc. assert (Hne : Bench.payload <> []) by discriminate.
  exact (@primary_answer_is_final Bench.Image Bench.Image_open svc []
           Bench.payload tt (Bench.finds_eggs "best.pt") Bench.eggs
           Hne eq_refl eq_refl eq_refl eq_refl).
Defined.

Lemma secondary_only_service_witness :
  let svc := Bench.service None
               (Some (Bench.failing "best2.pt" "secondary exploded")) false in
  detect_ingredients Bench.Image_open Bench.payload (mkWorld svc [])
  = (Raise (DetectionModelNotReady
              "Both primary and secondary models failed. Last error: secondary exploded"
              (From (Exception "secondary exploded"))),
     mkWorld svc [Predict "best2.pt"]).
Proof.
  intros svc. assert (Hne : Bench.payload <> []) by discriminate.
  exact (proj2 (@secondary_only_service Bench.Image Bench.Image_open svc []
                  Bench.payload tt
                  (Bench.failing "best2.pt" "secondary exploded")
                  Hne eq_refl eq_refl eq_refl)
           (Exception "secondary exploded") eq_refl).
Defined.

Lemma undecodable_image_witness :
  let svc := Bench.service (Some (Bench.finds_eggs "best.pt")) None false in
  detect_ingredients Rig.broken_open Bench.payload (mkWorld svc [])
  = (Raise (DetectionModelNotReady
              "Failed to decode image: cannot identify image file"
              (From (Exception "cannot identify image file"))),
     mkWorld svc []).
Proof.
  intros svc. assert (Hne : Bench.payload <> []) by discriminate.
  exact (proj1 (@undecodable_image Bench.Image Rig.broken_open svc []
                  Bench.payload (Exception "cannot identify image file")
                  Hne eq_refl eq_refl)).
Defined.

Lemma ensemble_flag_needs_both_slots_witness :
  let svc := Bench.service (Some (Bench.finds_eggs "best.pt")) None false in
  fst (detect_ingredients Bench.Image_open Bench.payload
         (mkWorld (with_ensemble svc true) []))
  = Return (detections_of_results Bench.names Bench.eggs).
Proof.
  intros svc.
  rewrite (proj1 (@ensemble_flag_needs_both_slots Bench.Image Bench.Image_open
                    svc [] Bench.payload true eq_refl)).
  reflexivity.
Defined.

Lemma failures_are_not_ready_witness :
  let svc := Bench.service None
               (Some (Bench.failing "best2.pt" "secondary exploded")) true in
  ensemble_effective svc = false /\
  is_not_ready
    (DetectionModelNotReady
       "Both primary and secondary models failed. Last error: secondary exploded"
       (From (Exception "secondary exploded"))) = true.
Proof.
  intros svc. split; [reflexivity|].
  exact (proj1 (@failures_are_not_ready Bench.Image Bench.Image_open svc []
                  Bench.payload) eq_refl _ _ eq_refl).
Defined.

Lemma both_models_groups_what_detect_returns_witness :
  let svc := Bench.service (Some (Bench.failing "best.pt" "primary exploded"))
               (Some (Bench.finds_eggs "best2.pt")) false in
  exists r w2,
    detect_ingredients_both_models Bench.Image_open Bench.payload (mkWorld svc [])
      = (Return r, w2) /\
    (model1 r = _group_and_count_detections
                  (detections_of_results Bench.names Bench.eggs) \/
     (model1 r = [] /\
      model2 r = _group_and_count_detections
                   (detections_of_results Bench.names Bench.eggs))).
Proof.
  intros svc.
  exact (@both_models_groups_what_detect_returns Bench.Image Bench.Image_open
           svc [] Bench.payload
           (detections_of_results Bench.names Bench.eggs) _ eq_refl eq_refl).
Defined.

Lemma both_models_runs_every_bound_detector_witness :
  let svc := Bench.service (Some (Bench.failing "best.pt" "primary exploded"))
               (Some (Bench.finds_eggs "best2.pt")) false in
  exists evs,
    trace (snd (detect_ingredients_both_models Bench.Image_open Bench.payload
                  (mkWorld svc []))) = [] ++ evs /\
    filter is_predict evs = [Predict "best.pt"; Predict "best2.pt"].
Proof.
  intros svc.
  destruct (@both_models_runs_every_bound_detector Bench.Image Bench.Image_open
              svc [] Bench.payload) as [evs [Htr [_ Hall]]].
  exists evs. split; [exact Htr|].
  exact (proj1 (Hall _ _ eq_refl)).
Defined.

Lemma detect_runs_each_detector_at_most_once_witness :
  let svc := Bench.service (Some (Bench.failing "best.pt" "primary exploded"))
               (Some (Bench.finds_eggs "best2.pt")) false in
  exists evs,
    trace (snd (detect_ingredients Bench.Image_open Bench.payload
                  (mkWorld svc []))) = [] ++ evs /\
    exists ran_primary ran_secondary : bool,
      filter is_predict evs =
      (if ran_primary then [Predict "best.pt"] else []) ++
      (if ran_secondary then [Predict "best2.pt"] else []).
Proof.
  intros svc.
  destruct (@detect_runs_each_detector_at_most_once Bench.Image
              Bench.Image_open svc [] Bench.payload) as [evs [Htr [_ Hruns]]].
  exists evs. split; [exact Htr | exact Hruns].
Defined.

Lemma ensemble_switch_needs_both_witness :
  let svc := Bench.service (Some (Bench.finds_eggs "best.pt")) None false in
  set_ensemble_mode true (mkWorld svc [])
  = (Return tt,
     mkWorld svc [Warning "Ensemble mode requested but both models not available."]).
Proof.
  intros svc.
  exact (proj1 (@ensemble_switch_needs_both Bench.Image svc [] true)).
Defined.

Lemma service_starts_with_settled_slots_witness :
  exists svc logged,
    __init__ (Rig.host true) = (Return svc, logged) /\
    primary_model_ready svc = negb (truthy (_primary_model_error svc)) /\
    ensemble_mode svc =
      true && primary_model_ready svc && secondary_model_ready svc.
Proof.
  destruct (__init__ (Rig.host true)) as [[svc|e] logged] eqn:Hinit.
  - exists svc, logged. split; [reflexivity|].
    destruct (@service_starts_with_settled_slots Bench.Image string
                (Rig.host true) svc logged Hinit) as [H1 [_ [_ [_ H5]]]].
    split; [exact H1 | exact H5].
  - vm_compute in Hinit. discriminate Hinit.
Defined.

Lemma missing_package_binds_nothing_witness :
  let hint := "Ultralytics package not installed. Run `pip install ultralytics`." in
  let svc := mkService (Image := Bench.Image) None None [] [] (Some hint)
               (Some hint) false in
  fst (__init__ (Rig.bare_host true)) = Return svc /\
  detect_ingredients Bench.Image_open Bench.payload (mkWorld svc [])
  = (Raise (DetectionModelNotReady hint NoCause), mkWorld svc []).
Proof.
  intros hint svc. split; [reflexivity|].
  assert (Hne : Bench.payload <> []) by discriminate.
  exact (proj2 (@missing_package_binds_nothing Bench.Image string
                  (Rig.bare_host true) Bench.Image_open eq_refl)
           Bench.payload [] Hne).
Defined.



Lemma ensemble_success_witness :
  let svc := Bench.service (Some (Bench.finds_eggs "best.pt"))
               (Some (Bench.finds_eggs "best2.pt")) true in
  detect_ingredients Bench.Image_open Bench.payload (mkWorld svc [])
  = (Return [mkDetection "Egg" "dairy" 1 (9 # 10) [1; 2; 3; 4]%Q;
             mkDetection "class_7" "uncategorized" 1 (1 # 2) [0; 0; 1; 1]%Q],
     mkWorld svc [Predict "best.pt"; Predict "best2.pt"]).
Proof.
  intros svc. assert (Hne : Bench.payload <> []) by discriminate.
  exact (@ensemble_success Bench.Image Bench.Image_open svc [] Bench.payload tt
           (Bench.finds_eggs "best.pt") (Bench.finds_eggs "best2.pt")
           Bench.eggs Bench.eggs Hne eq_refl eq_refl eq_refl eq_refl
           eq_refl eq_refl).
Defined.
